(** * Weather Now: the search-to-weather pipeline of [src/App.tsx]

    A shallow embedding of the component's pure helpers ([degToCompass],
    [cToF], the [WEATHER_CODE] table), of its two derived views ([current],
    [next12Hours]) and of its event handlers (the debounced lookup effect,
    [handlePick], the unit buttons), followed by the properties the
    specification states about them.

    Conventions of the embedding.
    - A JavaScript [number] is a rational ([Q]): the finite values, with
      [+], [*] and [/] taken exactly.  [undefined] and [NaN] appear only
      where the code can produce them (an array read past the end, a date
      string that does not parse) and are then explicit constructors.
      Where a property depends on how binary64 rounds a sum or a
      quotient, the function is also given on doubles (module [Double],
      on the kernel's primitive floats) and the property is settled
      there.
    - A JavaScript string is the [string] of its WTF-8 bytes (UTF-8,
      extended to code units [D800..DFFF] that are not part of a pair).
    - [Math.round x] is [floor (x + 1/2)] (ties go up), the remainder [%]
      on integral values is the truncated remainder [Z.rem].
    - An array is a [list]; [a[i]] is [nth_error a i], [None] standing for
      [undefined].
    - React state is a record; a setter builds the next record.  Timers,
      pending requests and the console are explicit components of the
      [World] the handlers run in. *)

From Stdlib Require Import ZArith QArith Qround Lqa List String Ascii Bool Lia.
From Stdlib Require Floats Uint63.
Import ListNotations.

Local Open Scope string_scope.
Local Open Scope Z_scope.

(* ================================================================= *)
(** ** JavaScript values used by the component *)

Definition number := Q.

(** [Math.round]: the nearest integer, halves rounded towards [+infinity]. *)
Definition Math_round (x : number) : Z := Qfloor (x + (1 # 2))%Q.

(** The result of reading a [number[]] at an index that may be out of
    range, and of arithmetic on such a value. *)
Inductive jsnum : Type :=
| Num (q : number)
| NaN
| Undefined.

Definition read (a : list number) (i : nat) : jsnum :=
  match nth_error a i with
  | Some v => Num v
  | None => Undefined
  end.

(** [x || d] for a string-or-undefined [x]: the empty string is falsy. *)
Definition or_else (x : option string) (d : string) : string :=
  match x with
  | Some EmptyString => d
  | Some s => s
  | None => d
  end.

(** [x ?? d] for a number-or-undefined [x]. *)
Definition nullish (x : option number) (d : number) : number :=
  match x with
  | Some v => v
  | None => d
  end.

(* ================================================================= *)
(** ** Constants and pure helpers (lines 4-67) *)

Definition WEATHER_CODE : list (Z * string) :=
  [ (0, "Clear sky");
    (1, "Mainly clear");
    (2, "Partly cloudy");
    (3, "Overcast");
    (45, "Fog");
    (48, "Depositing rime fog");
    (51, "Light drizzle");
    (53, "Moderate drizzle");
    (55, "Dense drizzle");
    (56, "Light freezing drizzle");
    (57, "Dense freezing drizzle");
    (61, "Slight rain");
    (63, "Moderate rain");
    (65, "Heavy rain");
    (66, "Light freezing rain");
    (67, "Heavy freezing rain");
    (71, "Slight snow fall");
    (73, "Moderate snow fall");
    (75, "Heavy snow fall");
    (77, "Snow grains");
    (80, "Slight rain showers");
    (81, "Moderate rain showers");
    (82, "Violent rain showers");
    (85, "Slight snow showers");
    (86, "Heavy snow showers");
    (95, "Thunderstorm");
    (96, "Thunderstorm with slight hail");
    (99, "Thunderstorm with heavy hail") ].

(** [table[code]] for a [Record<number, string>]: the property named by the
    number, which exists exactly when the number equals one of the keys. *)
Definition lookup_code (table : list (Z * string)) (code : number)
  : option string :=
  match find (fun kv => Qeq_bool code (inject_Z (fst kv))) table with
  | Some kv => Some (snd kv)
  | None => None
  end.

Definition dirs : list string :=
  [ "N"; "NNE"; "NE"; "ENE"; "E"; "ESE"; "SE"; "SSE";
    "S"; "SSW"; "SW"; "WSW"; "W"; "WNW"; "NW"; "NNW" ].

(** The index expression of [degToCompass]: [Math.round(deg / 22.5) % 16]. *)
Definition compassIndex (deg : number) : Z :=
  Z.rem (Math_round (deg / (45 # 2))%Q) 16.

(** [dirs[i]] for an integral [i]: [undefined] below zero and past the end. *)
Definition index (a : list string) (i : Z) : option string :=
  if i <? 0 then None else nth_error a (Z.to_nat i).

Definition degToCompass (deg : number) : option string :=
  index dirs (compassIndex deg).

Definition cToF (c : number) : number := ((c * 9) / 5 + 32)%Q.

(** [cToF] applied to what an array read returned: arithmetic on
    [undefined] or [NaN] is [NaN]. *)
Definition cToF_js (v : jsnum) : jsnum :=
  match v with
  | Num c => Num (cToF c)
  | NaN | Undefined => NaN
  end.

(* ----------------------------------------------------------------- *)
(** *** The same on binary64 doubles *)

Module Double.

Definition t := PrimFloat.float.

(** The double of an integer (exact up to [2^53]). *)
Definition ofZ (z : Z) : t :=
  if z <? 0
  then PrimFloat.opp (PrimFloat.of_uint63 (Uint63.of_Z (- z)))
  else PrimFloat.of_uint63 (Uint63.of_Z z).

(** The rational a finite double is; [None] for [NaN] and the
    infinities. *)
Definition toQ (x : t) : option Q :=
  match FloatOps.Prim2SF x with
  | SpecFloat.S754_zero _ => Some 0%Q
  | SpecFloat.S754_finite s m e =>
      let n := if s then Z.neg m else Z.pos m in
      Some match e with
           | Z0 => inject_Z n
           | Zpos p => inject_Z (n * 2 ^ Zpos p)
           | Zneg p => Qmake n (2 ^ p)
           end
  | SpecFloat.S754_infinity _ | SpecFloat.S754_nan => None
  end.

(** [22.5], which is a double. *)
Definition sector : t := PrimFloat.div (ofZ 45) (ofZ 2).

(** [degToCompass] with the quotient [deg / 22.5] rounded to a double.
    [Math.round] of a finite double and the remainder of an integral
    double are exact; [Math.round] keeps [NaN] and the infinities, whose
    remainder is [NaN], and [dirs[NaN]] is [undefined]. *)
Definition degToCompass (deg : t) : option string :=
  match toQ (PrimFloat.div deg sector) with
  | Some x => index dirs (Z.rem (Math_round x) 16)
  | None => None
  end.

(** [a == b] on what [degToCompass] returns. *)
Definition sameLabel (a b : option string) : bool :=
  match a, b with
  | Some x, Some y => String.eqb x y
  | None, None => true
  | _, _ => false
  end.

(** [cToF], each operation rounded. *)
Definition cToF (c : t) : t :=
  PrimFloat.add (PrimFloat.div (PrimFloat.mul c (ofZ 9)) (ofZ 5)) (ofZ 32).




(** Where sector [n] starts: [22.5 n - 11.25] degrees, which is a
    double. *)
Definition sectorStart (n : Z) : t :=
  PrimFloat.div (ofZ (45 * (2 * n - 1))) (ofZ 4).

(** The last double of sector [n]: the one just below the start of
    sector [n + 1]. *)
Definition sectorLast (n : Z) : t :=
  PrimFloat.next_down (sectorStart (n + 1)).

(** What one check of sector [n] compares: the labels of its first and
    of its last double with entry [n mod 16] of the table. *)
Definition sectorEnds (n : Z) : bool :=
  sameLabel (degToCompass (sectorStart n))
    (nth_error dirs (Z.to_nat (n mod 16)))
  && sameLabel (degToCompass (sectorLast n))
       (nth_error dirs (Z.to_nat (n mod 16))).

End Double.


(* ================================================================= *)
(** ** Types for API data (lines 69-98) *)

Module Place.
Record t : Type := {
  id : number;
  name : string;
  admin1 : option string;
  country : option string;
  latitude : number;
  longitude : number
}.
End Place.

Module CurrentWeather.
Record t : Type := {
  temperature_2m : number;
  apparent_temperature : number;
  is_day : number;
  weather_code : number;
  wind_speed_10m : number;
  wind_direction_10m : number;
  relative_humidity_2m : number
}.
End CurrentWeather.

Module HourlyWeather.
Record t : Type := {
  time : list string;
  temperature_2m : list number;
  precipitation_probability : option (list number)
}.
End HourlyWeather.

Module WeatherData.
Record t : Type := {
  current : CurrentWeather.t;
  hourly : HourlyWeather.t
}.
End WeatherData.

(** The [unit] state: ["C" | "F"]. *)
Inductive Unit : Type := C | F.

Definition isC (u : Unit) : bool :=
  match u with C => true | F => false end.

(* ================================================================= *)
(** ** Derived views (lines 177-212) *)

Module CurrentView.
Record t : Type := {
  temp : number;
  feels : number;
  isDay : bool;
  wcode : number;
  wind : number;
  windDir : number;
  humidity : number;
  label : string;
  unitSymbol : string
}.
End CurrentView.

Module HourView.
Record t : Type := {
  time : string;
  temp : jsnum;
  pop : number
}.
End HourView.

(** [!!n] for a number [n]. *)
Definition truthy (n : number) : bool := negb (Qeq_bool n 0).

(** The [current] memo: a function of [weather] and [unit]. *)
Definition current (weather : option WeatherData.t) (unit : Unit)
  : option CurrentView.t :=
  match option_map WeatherData.current weather with
  | None => None
  | Some c =>
      let tempC := CurrentWeather.temperature_2m c in
      let feelsC := CurrentWeather.apparent_temperature c in
      Some {| CurrentView.temp := if isC unit then tempC else cToF tempC;
              CurrentView.feels := if isC unit then feelsC else cToF feelsC;
              CurrentView.isDay := truthy (CurrentWeather.is_day c);
              CurrentView.wcode := CurrentWeather.weather_code c;
              CurrentView.wind := CurrentWeather.wind_speed_10m c;
              CurrentView.windDir := CurrentWeather.wind_direction_10m c;
              CurrentView.humidity := CurrentWeather.relative_humidity_2m c;
              CurrentView.label :=
                or_else
                  (lookup_code WEATHER_CODE (CurrentWeather.weather_code c))
                  "—";
              CurrentView.unitSymbol := if isC unit then "°C" else "°F" |}
  end.

Section Next12Hours.

(** [new Date(s).getTime()] of the host: milliseconds since the epoch,
    [None] for the [NaN] of a string that is not a date. *)
Variable getTime : string -> option Z.

(** [t >= now], false when [t] is [NaN]. *)
Definition at_or_after (t : option Z) (now : Z) : bool :=
  match t with
  | Some t => now <=? t
  | None => false
  end.

(** The object pushed for position [i], whose timestamp is [ti]. *)
Definition hourItem (h : HourlyWeather.t) (unit : Unit)
    (i : nat) (ti : string) : HourView.t :=
  let tempC := read (HourlyWeather.temperature_2m h) i in
  {| HourView.time := ti;
     HourView.temp := if isC unit then tempC else cToF_js tempC;
     HourView.pop :=
       nullish match HourlyWeather.precipitation_probability h with
               | Some a => nth_error a i
               | None => None
               end 0%Q |}.

(** The [for] loop of [next12Hours], from index [i] with the items
    collected so far; [fuel] bounds the number of iterations. *)
Fixpoint next12Hours_loop (fuel : nat) (h : HourlyWeather.t)
    (unit : Unit) (now : Z) (i : nat) (items : list HourView.t)
  : list HourView.t :=
  match fuel with
  | O => items
  | S fuel' =>
      if ((i <? List.length (HourlyWeather.time h))%nat
          && (List.length items <? 12)%nat)%bool
      then
        match nth_error (HourlyWeather.time h) i with
        | Some ti =>
            if at_or_after (getTime ti) now
            then next12Hours_loop fuel' h unit now (S i)
                   (items ++ [hourItem h unit i ti])
            else next12Hours_loop fuel' h unit now (S i) items
        | None => next12Hours_loop fuel' h unit now (S i) items
        end
      else items
  end.

(** The [next12Hours] memo; [now] is the value [Date.now()] returned.
    The loop index grows by one per iteration and stops at
    [time.length], so [time.length] iterations are enough. *)
Definition next12Hours (weather : option WeatherData.t) (unit : Unit)
    (now : Z) : list HourView.t :=
  match option_map WeatherData.hourly weather with
  | None => []
  | Some h =>
      next12Hours_loop (List.length (HourlyWeather.time h)) h unit now 0 []
  end.

(** The timestamps of a series, each with its position. *)
Definition positions (times : list string) : list (nat * string) :=
  combine (seq 0 (List.length times)) times.

(** The specification's wording of the same view: the positions of the
    hourly series whose timestamp is at or after [now], in order, cut to
    the first twelve, each turned into its entry. *)
Definition deriveUpcomingHours (weather : option WeatherData.t)
    (unit : Unit) (now : Z) : list HourView.t :=
  match weather with
  | None => []
  | Some w =>
      let h := WeatherData.hourly w in
      firstn 12
        (map (fun p => hourItem h unit (fst p) (snd p))
           (filter (fun p => at_or_after (getTime (snd p)) now)
              (positions (HourlyWeather.time h))))
  end.

End Next12Hours.

(* ----------------------------------------------------------------- *)
(** *** Timestamps of the forecast service

    The service sends local wall-clock timestamps [YYYY-MM-DDTHH:MM]; the
    host reads such a string as local time.  [wallClockMinutes] is the
    minute such a string names, counted from 1970-01-01T00:00 on the same
    wall clock, and [isoLocal offset] the host's reading of the string in
    a zone [offset] minutes ahead of UTC. *)

Definition digit (c : ascii) : option Z :=
  let n := Z.of_nat (nat_of_ascii c) in
  if (48 <=? n) && (n <=? 57) then Some (n - 48) else None.

(** [n] decimal digits at the head of [s]: their value and the rest. *)
Fixpoint digits (n : nat) (acc : Z) (s : string) : option (Z * string) :=
  match n with
  | O => Some (acc, s)
  | S n' =>
      match s with
      | String c s' =>
          match digit c with
          | Some d => digits n' (10 * acc + d) s'
          | None => None
          end
      | EmptyString => None
      end
  end.

Definition expect (c : ascii) (s : string) : option string :=
  match s with
  | String c' s' => if Ascii.eqb c c' then Some s' else None
  | EmptyString => None
  end.

(** Days from 1970-01-01 to the given civil date (proleptic Gregorian). *)
Definition daysFromCivil (y m d : Z) : Z :=
  let y' := if m <=? 2 then y - 1 else y in
  let era := y' / 400 in
  let yoe := y' - era * 400 in
  let mp := (m + 9) mod 12 in
  let doy := (153 * mp + 2) / 5 + d - 1 in
  let doe := yoe * 365 + yoe / 4 - yoe / 100 + doy in
  era * 146097 + doe - 719468.

Definition andThen {A B : Type} (x : option A) (k : A -> option B)
  : option B :=
  match x with
  | Some a => k a
  | None => None
  end.

Definition wallClockMinutes (s : string) : option Z :=
  andThen (digits 4 0 s) (fun '(y, s) =>
  andThen (expect "-" s) (fun s =>
  andThen (digits 2 0 s) (fun '(m, s) =>
  andThen (expect "-" s) (fun s =>
  andThen (digits 2 0 s) (fun '(d, s) =>
  andThen (expect "T" s) (fun s =>
  andThen (digits 2 0 s) (fun '(hh, s) =>
  andThen (expect ":" s) (fun s =>
  andThen (digits 2 0 s) (fun '(mm, s) =>
    match s with
    | EmptyString =>
        if (1 <=? m) && (m <=? 12) && (1 <=? d) && (d <=? 31)
           && (hh <=? 23) && (mm <=? 59)
        then Some ((daysFromCivil y m d * 24 + hh) * 60 + mm)
        else None
    | String _ _ => None
    end))))))))).

Definition isoLocal (offset : Z) (s : string) : option Z :=
  match wallClockMinutes s with
  | Some m => Some ((m - offset) * 60000)
  | None => None
  end.

(* ================================================================= *)
(** ** Errors and request outcomes *)

Module JsError.
Record t : Type := {
  name : string;
  message : string
}.
End JsError.

(** What a [catch (e: unknown)] receives: an [Error] object (the values
    [e instanceof Error] accepts) or any other value. *)
Inductive thrown : Type :=
| AnError (e : JsError.t)
| NotAnError.

(** How the awaited part of a [try] block ends: [fetch] rejects, the
    response arrives with [ok] false, [json()] rejects, or [json()] yields
    the parsed body. *)
Inductive outcome (A : Type) : Type :=
| FetchRejects (e : thrown)
| NotOk
| JsonRejects (e : thrown)
| Json (data : A).

Arguments FetchRejects {A} e.
Arguments NotOk {A}.
Arguments JsonRejects {A} e.
Arguments Json {A} data.

(** The value a [try] block completes with: what it threw, or the parsed
    body; [notOk] is the message of the [Error] it throws itself. *)
Definition tried {A : Type} (notOk : string) (o : outcome A) : thrown + A :=
  match o with
  | FetchRejects e => inl e
  | NotOk =>
      inl (AnError {| JsError.name := "Error"; JsError.message := notOk |})
  | JsonRejects e => inl e
  | Json data => inr data
  end.

(** The rejection of an aborted [fetch]; its message is the browser's. *)
Definition abortError (msg : string) : thrown :=
  AnError {| JsError.name := "AbortError"; JsError.message := msg |}.

(* ================================================================= *)
(** ** Requests *)

(** The lookup URL (lines 119-121), by its query parameters. *)
Module GeoRequest.
Record t : Type := {
  name : string;
  count : Z;
  language : string;
  format : string
}.
End GeoRequest.

(** The forecast URL (lines 143-162), by its query parameters. *)
Module WxRequest.
Record t : Type := {
  latitude : number;
  longitude : number;
  current : list string;
  hourly : list string;
  timezone : string
}.
End WxRequest.

Definition geoRequest (query : string) : GeoRequest.t :=
  {| GeoRequest.name := query;
     GeoRequest.count := 5;
     GeoRequest.language := "en";
     GeoRequest.format := "json" |}.

Definition wxRequest (place : Place.t) : WxRequest.t :=
  {| WxRequest.latitude := Place.latitude place;
     WxRequest.longitude := Place.longitude place;
     WxRequest.current :=
       [ "temperature_2m"; "apparent_temperature"; "is_day"; "weather_code";
         "wind_speed_10m"; "wind_direction_10m"; "relative_humidity_2m" ];
     WxRequest.hourly :=
       [ "temperature_2m"; "precipitation_probability";
         "relative_humidity_2m" ];
     WxRequest.timezone := "auto" |}.

(* ================================================================= *)
(** ** Component state (lines 101-108) *)

(** The seven [useState] cells. *)
Record AppState : Type := {
  query : string;
  suggestions : list Place.t;
  selectedPlace : option Place.t;
  weather : option WeatherData.t;
  unit : Unit;
  loading : bool;
  error : string
}.

(** The component in its environment.  A lookup request is identified by
    its position in [geoRequests]; the [AbortController] created for it
    carries the same number.  (A controller whose callback sends no
    request has nothing to abort: the next callback aborts it, to no
    effect, and replaces it before it sends its own request.) *)
Record World : Type := {
  ui : AppState;
  abortRef : option nat;            (* abortRef.current *)
  clock : Z;                        (* milliseconds *)
  timer : option (Z * string);      (* pending timeout: due time, the
                                       query its callback closes over *)
  geoRequests : list GeoRequest.t;  (* lookups issued, oldest first *)
  geoPending : list nat;            (* lookups in flight *)
  geoAborted : list nat;            (* aborted, rejection not yet handled *)
  wxRequests : list WxRequest.t;    (* forecast requests issued *)
  wxPending : list nat;             (* forecast requests in flight *)
  console : list thrown             (* console.error calls *)
}.

Definition initialState : AppState :=
  {| query := EmptyString;
     suggestions := [];
     selectedPlace := None;
     weather := None;
     unit := C;
     loading := false;
     error := EmptyString |}.

Definition initialWorld : World :=
  {| ui := initialState;
     abortRef := None;
     clock := 0;
     timer := None;
     geoRequests := [];
     geoPending := [];
     geoAborted := [];
     wxRequests := [];
     wxPending := [];
     console := [] |}.

(* ----------------------------------------------------------------- *)
(** *** Setters *)

Definition setQuery (v : string) (s : AppState) : AppState :=
  {| query := v; suggestions := suggestions s;
     selectedPlace := selectedPlace s; weather := weather s;
     unit := unit s; loading := loading s; error := error s |}.

Definition setSuggestions (v : list Place.t) (s : AppState) : AppState :=
  {| query := query s; suggestions := v;
     selectedPlace := selectedPlace s; weather := weather s;
     unit := unit s; loading := loading s; error := error s |}.

Definition setSelectedPlace (v : option Place.t) (s : AppState) : AppState :=
  {| query := query s; suggestions := suggestions s;
     selectedPlace := v; weather := weather s;
     unit := unit s; loading := loading s; error := error s |}.

Definition setWeather (v : option WeatherData.t) (s : AppState) : AppState :=
  {| query := query s; suggestions := suggestions s;
     selectedPlace := selectedPlace s; weather := v;
     unit := unit s; loading := loading s; error := error s |}.

Definition setUnit (v : Unit) (s : AppState) : AppState :=
  {| query := query s; suggestions := suggestions s;
     selectedPlace := selectedPlace s; weather := weather s;
     unit := v; loading := loading s; error := error s |}.

Definition setLoading (v : bool) (s : AppState) : AppState :=
  {| query := query s; suggestions := suggestions s;
     selectedPlace := selectedPlace s; weather := weather s;
     unit := unit s; loading := v; error := error s |}.

Definition setError (v : string) (s : AppState) : AppState :=
  {| query := query s; suggestions := suggestions s;
     selectedPlace := selectedPlace s; weather := weather s;
     unit := unit s; loading := loading s; error := v |}.

(** A state setter called by a handler running in [w]. *)
Definition withUi (f : AppState -> AppState) (w : World) : World :=
  {| ui := f (ui w); abortRef := abortRef w; clock := clock w;
     timer := timer w; geoRequests := geoRequests w;
     geoPending := geoPending w; geoAborted := geoAborted w;
     wxRequests := wxRequests w; wxPending := wxPending w;
     console := console w |}.

Definition setAbortRef (v : option nat) (w : World) : World :=
  {| ui := ui w; abortRef := v; clock := clock w;
     timer := timer w; geoRequests := geoRequests w;
     geoPending := geoPending w; geoAborted := geoAborted w;
     wxRequests := wxRequests w; wxPending := wxPending w;
     console := console w |}.

Definition setClock (v : Z) (w : World) : World :=
  {| ui := ui w; abortRef := abortRef w; clock := v;
     timer := timer w; geoRequests := geoRequests w;
     geoPending := geoPending w; geoAborted := geoAborted w;
     wxRequests := wxRequests w; wxPending := wxPending w;
     console := console w |}.

Definition setTimer (v : option (Z * string)) (w : World) : World :=
  {| ui := ui w; abortRef := abortRef w; clock := clock w;
     timer := v; geoRequests := geoRequests w;
     geoPending := geoPending w; geoAborted := geoAborted w;
     wxRequests := wxRequests w; wxPending := wxPending w;
     console := console w |}.

(** The lookups: the log of requests, those in flight, those aborted. *)
Definition setGeo (reqs : list GeoRequest.t) (pending aborted : list nat)
    (w : World) : World :=
  {| ui := ui w; abortRef := abortRef w; clock := clock w;
     timer := timer w; geoRequests := reqs;
     geoPending := pending; geoAborted := aborted;
     wxRequests := wxRequests w; wxPending := wxPending w;
     console := console w |}.

Definition setWx (reqs : list WxRequest.t) (pending : list nat)
    (w : World) : World :=
  {| ui := ui w; abortRef := abortRef w; clock := clock w;
     timer := timer w; geoRequests := geoRequests w;
     geoPending := geoPending w; geoAborted := geoAborted w;
     wxRequests := reqs; wxPending := pending;
     console := console w |}.

Definition console_error (e : thrown) (w : World) : World :=
  {| ui := ui w; abortRef := abortRef w; clock := clock w;
     timer := timer w; geoRequests := geoRequests w;
     geoPending := geoPending w; geoAborted := geoAborted w;
     wxRequests := wxRequests w; wxPending := wxPending w;
     console := console w ++ [e] |}.

Definition mem (n : nat) (l : list nat) : bool := existsb (Nat.eqb n) l.

Definition without (n : nat) (l : list nat) : list nat :=
  filter (fun m => negb (Nat.eqb n m)) l.

(* ================================================================= *)
(** ** The debounced lookup effect (lines 110-133) *)

(** [clearTimeout(t)], the cleanup the effect returns. *)
Definition clearTimeout (w : World) : World := setTimer None w.

(** [setTimeout(callback, 300)] for a callback that closes over [q]. *)
Definition setTimeout (q : string) (w : World) : World :=
  setTimer (Some (clock w + 300, q)) w.

(** The effect body, run for the query just committed. *)
Definition queryEffect (w : World) : World :=
  match query (ui w) with
  | EmptyString => withUi (setSuggestions []) w
  | q => setTimeout q w
  end.

(** [onChange]: [setQuery(e.target.value)].  A value equal to the current
    state leaves the component as it is; a new one re-renders, which runs
    the previous effect's cleanup and then the effect, whose dependency
    [query] changed. *)
Definition onChange (q : string) (w : World) : World :=
  if String.eqb q (query (ui w)) then w
  else queryEffect (clearTimeout (withUi (setQuery q) w)).

(** [controller.abort()]: a request still in flight is cancelled and will
    reject; a finished one is not affected. *)
Definition abort (c : nat) (w : World) : World :=
  if mem c (geoPending w)
  then setGeo (geoRequests w) (without c (geoPending w))
         (geoAborted w ++ [c]) w
  else w.

(** The [catch] block (lines 126-130). *)
Definition lookup_catch (e : thrown) (w : World) : World :=
  match e with
  | AnError err =>
      if negb (String.eqb (JsError.name err) "AbortError")
      then console_error e w
      else w
  | NotAnError => w
  end.

(** [encodeURIComponent(s)] throws a [URIError] exactly when [s] holds a
    surrogate that is not part of a pair.  In WTF-8 such a code unit, and
    nothing else, is a byte [ED] followed by a byte from [A0] on. *)
Fixpoint loneSurrogate (s : string) : bool :=
  match s with
  | String c (String d _ as s') =>
      (Ascii.eqb c (ascii_of_nat 237) && (160 <=? nat_of_ascii d)%nat)
      || loneSurrogate s'
  | _ => false
  end.

(** What [encodeURIComponent] throws; the message is the engine's. *)
Definition uriError : thrown :=
  AnError {| JsError.name := "URIError";
             JsError.message := "URI malformed" |}.

(** The timeout callback up to [await fetch] (lines 117-122): the lookup
    in flight is aborted, a new controller is stored, the URL is built
    and the request sent.  When building the URL throws, no request is
    sent and the [catch] block runs at once. *)
Definition lookup (q : string) (w : World) : World :=
  let w := match abortRef w with
           | Some c => abort c w
           | None => w
           end in
  let id := List.length (geoRequests w) in
  let w := setAbortRef (Some id) w in
  if loneSurrogate q
  then lookup_catch uriError w
  else setGeo (geoRequests w ++ [geoRequest q]) (geoPending w ++ [id])
         (geoAborted w) w.

(** The callback from the point where the awaited request settles; the
    body carries [data?.results], if any. *)
Definition lookup_resume (o : outcome (option (list Place.t))) (w : World)
  : World :=
  match tried "Failed to fetch suggestions" o with
  | inr results =>
      withUi (setSuggestions match results with
                             | Some places => places
                             | None => []
                             end) w
  | inl e => lookup_catch e w
  end.

(* ================================================================= *)
(** ** [handlePick] (lines 135-175) *)

(** Up to [await fetch]. *)
Definition handlePick (place : option Place.t) (w : World) : World :=
  let w := withUi (setSelectedPlace place) w in
  let w := withUi (setSuggestions []) w in
  let w := withUi (setError EmptyString) w in
  match place with
  | None => w
  | Some p =>
      let w := withUi (setLoading true) w in
      let w := withUi (setWeather None) w in
      setWx (wxRequests w ++ [wxRequest p])
        (wxPending w ++ [List.length (wxRequests w)]) w
  end.

(** From the point where the awaited request settles: the rest of the
    [try], the [catch] and the [finally]. *)
Definition handlePick_resume (o : outcome WeatherData.t) (w : World)
  : World :=
  let w := match tried "Failed to fetch weather" o with
           | inr wx => withUi (setWeather (Some wx)) w
           | inl (AnError e) =>
               withUi (setError (or_else (Some (JsError.message e))
                                   "Something went wrong")) w
           | inl NotAnError =>
               withUi (setError "Something went wrong") w
           end in
  withUi (setLoading false) w.

(* ================================================================= *)
(** ** Events *)

Inductive event : Type :=
| Change (q : string)            (* the input's onChange with value q *)
| TimerFires                     (* the pending timeout callback runs *)
| LookupSettles (id : nat) (o : outcome (option (list Place.t)))
| LookupAborted (id : nat) (msg : string)
                                 (* an aborted lookup rejects *)
| Submit                         (* the form's onSubmit *)
| Pick (i : nat)                 (* click on the i-th suggestion *)
| WeatherSettles (id : nat) (o : outcome WeatherData.t)
| UnitButton (u : Unit).         (* click on the C or F button *)

(** One event at time [t]; [None] when it cannot happen in [w]: time does
    not go back, a timeout runs no earlier than it is due, only a request
    in flight settles, only a listed suggestion is clicked. *)
Definition step (t : Z) (e : event) (w : World) : option World :=
  if t <? clock w then None
  else
    let w := setClock t w in
    match e with
    | Change q => Some (onChange q w)
    | TimerFires =>
        match timer w with
        | Some (due, q) =>
            if due <=? t then Some (lookup q (setTimer None w)) else None
        | None => None
        end
    | LookupSettles id o =>
        if mem id (geoPending w)
        then Some (lookup_resume o
                     (setGeo (geoRequests w) (without id (geoPending w))
                        (geoAborted w) w))
        else None
    | LookupAborted id msg =>
        if mem id (geoAborted w)
        then Some (lookup_resume (FetchRejects (abortError msg))
                     (setGeo (geoRequests w) (geoPending w)
                        (without id (geoAborted w)) w))
        else None
    | Submit =>
        match suggestions (ui w) with
        | p :: _ => Some (handlePick (Some p) w)
        | [] => Some w
        end
    | Pick i =>
        match nth_error (suggestions (ui w)) i with
        | Some p => Some (handlePick (Some p) w)
        | None => None
        end
    | WeatherSettles id o =>
        if mem id (wxPending w)
        then Some (handlePick_resume o
                     (setWx (wxRequests w) (without id (wxPending w)) w))
        else None
    | UnitButton u => Some (withUi (setUnit u) w)
    end.

(** A timed sequence of events. *)
Fixpoint run (tr : list (Z * event)) (w : World) : option World :=
  match tr with
  | [] => Some w
  | (t, e) :: tr' =>
      match step t e w with
      | Some w' => run tr' w'
      | None => None
      end
  end.

(** The states the component can be in. *)
Definition reachable (w : World) : Prop :=
  exists tr, run tr initialWorld = Some w.

(* ================================================================= *)
(** ** The memo cell of [next12Hours] (lines 195-212) *)

Definition sameUnit (a b : Unit) : bool :=
  match a, b with
  | C, C | F, F => true
  | _, _ => false
  end.

(** [useMemo(f, [weather, unit])] runs [f] again at a render whose
    snapshot or unit is not the one of the render before, and returns the
    list it holds otherwise.  The unit is compared as a value, the
    snapshot as an object: each parsed response is a new object, [null]
    is [null].  [depsChanged e w] tells whether the render after event
    [e] in [w] runs [f] again. *)
Definition depsChanged (e : event) (w : World) : bool :=
  match e with
  | UnitButton u => negb (sameUnit u (unit (ui w)))
  | Submit =>
      match suggestions (ui w), weather (ui w) with
      | _ :: _, Some _ => true
      | _, _ => false
      end
  | Pick _ =>
      match weather (ui w) with
      | Some _ => true
      | None => false
      end
  | WeatherSettles _ (Json _) => true
  | _ => false
  end.

(** The list the memo returns at the render after event [e], which led
    from [w] to [w']; [shown] is the list it held.  When [f] runs it
    reads [Date.now()], the clock of that render. *)
Definition next12Hours_memo (getTime : string -> option Z) (e : event)
    (w w' : World) (shown : list HourView.t) : list HourView.t :=
  if depsChanged e w
  then next12Hours getTime (weather (ui w')) (unit (ui w')) (clock w')
  else shown.

(** The component and the list its memo holds, along a timed sequence of
    events. *)
Fixpoint shownAfter (getTime : string -> option Z)
    (tr : list (Z * event)) (w : World) (shown : list HourView.t)
  : option (World * list HourView.t) :=
  match tr with
  | [] => Some (w, shown)
  | (t, e) :: tr' =>
      match step t e w with
      | Some w' =>
          shownAfter getTime tr' w' (next12Hours_memo getTime e w w' shown)
      | None => None
      end
  end.

(* ================================================================= *)
(** ** Vocabulary of the specification *)

(** The views as the component renders them from its state. *)
Definition currentOf (s : AppState) : option CurrentView.t :=
  current (weather s) (unit s).

Definition next12HoursOf (getTime : string -> option Z) (now : Z)
    (s : AppState) : list HourView.t :=
  next12Hours getTime (weather s) (unit s) now.

(** The entries the loop of [next12Hours] still has to produce when it
    stands at index [i]: the qualifying positions from [i] on. *)
Definition upcomingFrom (getTime : string -> option Z)
    (h : HourlyWeather.t) (u : Unit) (now : Z) (i : nat)
  : list HourView.t :=
  let rest := skipn i (HourlyWeather.time h) in
  map (fun p => hourItem h u (fst p) (snd p))
    (filter (fun p => at_or_after (getTime (snd p)) now)
       (combine (seq i (List.length rest)) rest)).

(** A burst: after a change at time [tl] to the text [ql], every further
    change of [tr] comes less than 300ms after the change before it, and
    is a change (its text differs from the text before it). *)
Fixpoint burst (tl : Z) (ql : string) (tr : list (Z * event)) : bool :=
  match tr with
  | [] => true
  | (t, Change q) :: tr' =>
      (t - tl <? 300) && negb (String.eqb q ql) && burst t q tr'
  | _ :: tr' => burst tl ql tr'
  end.

(** The text of the last change of [tr], [ql] when there is none. *)
Fixpoint lastQuery (ql : string) (tr : list (Z * event)) : string :=
  match tr with
  | [] => ql
  | (_, Change q) :: tr' => lastQuery q tr'
  | _ :: tr' => lastQuery ql tr'
  end.

(** The timer a change to [q] at time [t] leaves behind. *)
Definition timerFor (t : Z) (q : string) : option (Z * string) :=
  match q with
  | EmptyString => None
  | _ => Some (t + 300, q)
  end.

(** Where a burst stands after its last change so far, to [ql] at [tl]:
    waiting for the timer, with no request issued since the burst began,
    or past the timer, which has sent the one request for [ql] (none when
    the URL for [ql] cannot be built). *)
Definition inBurst (reqs0 : list GeoRequest.t) (tl : Z) (ql : string)
    (w : World) : Prop :=
  query (ui w) = ql
  /\ ((geoRequests w = reqs0 /\ timer w = timerFor tl ql)
      \/ (timer w = None /\ tl + 300 <= clock w
          /\ ql <> EmptyString
          /\ geoRequests w
             = (if loneSurrogate ql
                then reqs0
                else reqs0 ++ [geoRequest ql])%list)).

(** At most one lookup is in flight, it is the one [abortRef] holds the
    controller of, and it is a request of the log. *)
Definition oneInFlight (w : World) : Prop :=
  geoPending w = []
  \/ exists id,
      geoPending w = [id] /\ abortRef w = Some id
      /\ (id < List.length (geoRequests w))%nat.

(** No change of the query in [tr]. *)
Fixpoint quiet (tr : list (Z * event)) : bool :=
  match tr with
  | [] => true
  | (_, Change _) :: _ => false
  | _ :: tr' => quiet tr'
  end.

(** Every successful lookup response of [tr] lists at most five places,
    as the request's [count=5] asks. *)
Fixpoint capped (tr : list (Z * event)) : bool :=
  match tr with
  | [] => true
  | (_, LookupSettles _ (Json (Some places))) :: tr' =>
      (List.length places <=? 5)%nat && capped tr'
  | _ :: tr' => capped tr'
  end.

(** A forecast request that ends in the [catch] block. *)
Definition failed {A : Type} (o : outcome A) : bool :=
  match o with
  | Json _ => false
  | _ => true
  end.

(** No forecast request of [tr] succeeds. *)
Fixpoint noForecast (tr : list (Z * event)) : bool :=
  match tr with
  | [] => true
  | (_, WeatherSettles _ o) :: tr' => failed o && noForecast tr'
  | _ :: tr' => noForecast tr'
  end.

(** No forecast request of [tr] fails. *)
Fixpoint noFailure (tr : list (Z * event)) : bool :=
  match tr with
  | [] => true
  | (_, WeatherSettles _ o) :: tr' => negb (failed o) && noFailure tr'
  | _ :: tr' => noFailure tr'
  end.

(** The message [handlePick] shows for a failed request. *)
Definition failureMessage {A : Type} (o : outcome A) : string :=
  match o with
  | NotOk => "Failed to fetch weather"
  | FetchRejects (AnError e) | JsonRejects (AnError e) =>
      match JsError.message e with
      | EmptyString => "Something went wrong"
      | m => m
      end
  | _ => "Something went wrong"
  end.

(* ----------------------------------------------------------------- *)
(** *** Sample data *)

Definition place (n : string) (lat lon : number) : Place.t :=
  {| Place.id := 1%Q; Place.name := n; Place.admin1 := None;
     Place.country := None; Place.latitude := lat; Place.longitude := lon |}.

Definition london : Place.t := place "London" (515 # 10)%Q (- (1 # 10))%Q.
Definition hyderabad : Place.t := place "Hyderabad" (174 # 10)%Q (785 # 10)%Q.

Definition sampleCurrent : CurrentWeather.t :=
  {| CurrentWeather.temperature_2m := 20%Q;
     CurrentWeather.apparent_temperature := 18%Q;
     CurrentWeather.is_day := 1%Q;
     CurrentWeather.weather_code := 3%Q;
     CurrentWeather.wind_speed_10m := 12%Q;
     CurrentWeather.wind_direction_10m := 270%Q;
     CurrentWeather.relative_humidity_2m := 60%Q |}.

Definition sampleHourly : HourlyWeather.t :=
  {| HourlyWeather.time := [ "2024-01-01T10:00"; "2024-01-01T11:00" ];
     HourlyWeather.temperature_2m := [ 20%Q; 21%Q ];
     HourlyWeather.precipitation_probability := None |}.

Definition sampleWeather : WeatherData.t :=
  {| WeatherData.current := sampleCurrent;
     WeatherData.hourly := sampleHourly |}.

Definition networkError : thrown :=
  AnError {| JsError.name := "TypeError";
             JsError.message := "Failed to fetch" |}.

(** Two selections whose requests overlap: London is picked, then
    Hyderabad while London's forecast is still on its way; London's
    forecast arrives after the second selection.  Hyderabad's request,
    number 1, is still in flight at the end. *)
Definition overlappingPicks : list (Z * event) :=
  [ (0, Change "Lon");
    (300, TimerFires);
    (400, LookupSettles 0 (Json (Some [london; hyderabad])));
    (500, Pick 0%nat);
    (600, Change "Hyd");
    (900, TimerFires);
    (1000, LookupSettles 1 (Json (Some [hyderabad])));
    (1100, Pick 0%nat);
    (1200, WeatherSettles 0 (Json sampleWeather)) ].

(** A lookup whose response lists six places. *)
Definition sixPlaces : list (Z * event) :=
  [ (0, Change "San");
    (300, TimerFires);
    (450, LookupSettles 0
            (Json (Some [london; london; london; london; london; london])))
  ].

(** The component after "Lon" was typed, looked up and answered. *)
Definition lonAnswered : list (Z * event) :=
  [ (0, Change "Lon");
    (300, TimerFires);
    (400, LookupSettles 0 (Json (Some [london]))) ].

Definition afterLon : World :=
  Eval vm_compute in
    match run lonAnswered initialWorld with
    | Some w => w
    | None => initialWorld
    end.

(** London is picked from the list, and its forecast request fails. *)
Definition londonPicked : World :=
  Eval vm_compute in handlePick (Some london) afterLon.

Definition londonFailed : World :=
  Eval vm_compute in
    match step 600 (WeatherSettles 0 NotOk) londonPicked with
    | Some w => w
    | None => londonPicked
    end.

(** Typing "Lon" and then "London" within 300ms, then waiting. *)
Definition typingLondon : list (Z * event) :=
  [ (100, Change "London"); (400, TimerFires) ].

Definition afterLondon : World :=
  Eval vm_compute in
    match run ((0, Change "Lon") :: typingLondon) initialWorld with
    | Some w => w
    | None => initialWorld
    end.

(** London's forecast is loaded, from ten o'clock on the day of the
    sample series ([tenOClock] is ["2024-01-01T10:00"] in UTC). *)
Definition tenOClock : Z := 1704103200000.

Definition londonLoaded : list (Z * event) :=
  [ (tenOClock, Change "Lon");
    (tenOClock + 300, TimerFires);
    (tenOClock + 400, LookupSettles 0 (Json (Some [london])));
    (tenOClock + 500, Pick 0%nat);
    (tenOClock + 600, WeatherSettles 0 (Json sampleWeather)) ].

Definition londonShown : World :=
  Eval vm_compute in
    match run londonLoaded initialWorld with
    | Some w => w
    | None => initialWorld
    end.

(** The unit is switched to Fahrenheit at half past ten and back to
    Celsius at half past eleven. *)
Definition thereAndBack : list (Z * event) :=
  [ (tenOClock + 1800000, UnitButton F);
    (tenOClock + 5400000, UnitButton C) ].

(* ================================================================= *)
(** ** Rendered place names (lines 264-267, 278-284) *)

(** [xs.filter(Boolean)] on an array of optional strings. *)
Fixpoint filterBoolean (xs : list (option string)) : list string :=
  match xs with
  | [] => []
  | Some (String c s) :: xs' => String c s :: filterBoolean xs'
  | _ :: xs' => filterBoolean xs'
  end.

(** [xs.join(sep)]. *)
Fixpoint join (sep : string) (xs : list string) : string :=
  match xs with
  | [] => EmptyString
  | [x] => x
  | x :: xs' => x ++ sep ++ join sep xs'
  end.

(** The second line of a suggestion:
    [[s.admin1, s.country].filter(Boolean).join(", ")]. *)
Definition suggestionSub (s : Place.t) : string :=
  join ", " (filterBoolean [Place.admin1 s; Place.country s]).

(** [x ? `, ${x}` : ""] for an optional string [x]. *)
Definition commaThen (x : option string) : string :=
  match x with
  | Some (String c s) => ", " ++ String c s
  | _ => EmptyString
  end.

(** The heading of the selected place: the name, then the region and the
    country, each after a comma when it is present. *)
Definition placeHeading (p : Place.t) : string :=
  Place.name p ++ commaThen (Place.admin1 p) ++ commaThen (Place.country p).

(* ================================================================= *)
(** ** Invariants of the component *)

(** A pending timeout closes over the query on display, which is not
    empty, and is due at most 300ms from now. *)
Definition timerCurrent (w : World) : Prop :=
  match timer w with
  | Some (due, q) =>
      q = query (ui w) /\ q <> EmptyString /\ due <= clock w + 300
  | None => True
  end.

(** A lookup in flight is the last one issued; an aborted lookup is one of
    the log and is not in flight. *)
Definition latestOnly (w : World) : Prop :=
  (forall id,
      In id (geoPending w) -> S id = List.length (geoRequests w))
  /\ (forall id,
         In id (geoAborted w) ->
         (id < List.length (geoRequests w))%nat
         /\ ~ In id (geoPending w)).

(** While the loading flag is up, the snapshot and the error slot are
    empty and a forecast request is in flight; before the first selection
    nothing has been asked for. *)
Definition loadingClean (w : World) : Prop :=
  (loading (ui w) = true ->
   weather (ui w) = None /\ error (ui w) = EmptyString
   /\ wxPending w <> [])
  /\ (selectedPlace (ui w) = None ->
      weather (ui w) = None /\ error (ui w) = EmptyString
      /\ loading (ui w) = false /\ wxRequests w = []
      /\ wxPending w = []).

(** The side of the state the search path never writes. *)
Definition forecastSide (w : World)
  : option Place.t * option WeatherData.t * bool * string
    * list WxRequest.t * list nat :=
  (selectedPlace (ui w), weather (ui w), loading (ui w), error (ui w),
   wxRequests w, wxPending w).

(** The timestamps of a series that are at or after [now]. *)
Definition upcomingTimes (getTime : string -> option Z) (now : Z)
    (times : list string) : list string :=
  filter (fun ti => at_or_after (getTime ti) now) times.

(** The place a selection event picks in [w], if it picks one. *)
Definition picked (e : event) (w : World) : option Place.t :=
  match e with
  | Pick i => nth_error (suggestions (ui w)) i
  | Submit => hd_error (suggestions (ui w))
  | _ => None
  end.

(** A place with a region and a country. *)
Definition telangana : Place.t :=
  {| Place.id := 2%Q; Place.name := "Hyderabad";
     Place.admin1 := Some "Telangana"; Place.country := Some "India";
     Place.latitude := (174 # 10)%Q; Place.longitude := (785 # 10)%Q |}.

(** "Lon" was typed and its timer is pending. *)
Definition lonTyped : World :=
  Eval vm_compute in
    match run [ (0, Change "Lon") ] initialWorld with
    | Some w => w
    | None => initialWorld
    end.

(** "Lon" was typed and its lookup is in flight. *)
Definition lonPending : World :=
  Eval vm_compute in
    match run [ (0, Change "Lon"); (300, TimerFires) ] initialWorld with
    | Some w => w
    | None => initialWorld
    end.

(** A query that is the single code unit [D800], and the component after
    it was typed, its timer pending. *)
Definition loneD800 : string :=
  String (ascii_of_nat 237)
    (String (ascii_of_nat 160) (String (ascii_of_nat 128) EmptyString)).

Definition loneTyped : World :=
  Eval vm_compute in
    match run [ (0, Change loneD800) ] initialWorld with
    | Some w => w
    | None => initialWorld
    end.

(** The lookup for "Lon" came back with a status that is not ok. *)
Definition lonFailed : World :=
  Eval vm_compute in
    match step 400 (LookupSettles 0 NotOk) lonPending with
    | Some w => w
    | None => lonPending
    end.

(** "Lon" was answered, "Lond" was typed and its lookup is in flight
    while the places for "Lon" are still listed. *)
Definition londPending : World :=
  Eval vm_compute in
    match run [ (500, Change "Lond"); (800, TimerFires) ] afterLon with
    | Some w => w
    | None => afterLon
    end.

(* ================================================================= *)
(** * Properties *)

(* ================================================================= *)
(** ** Rounding and the compass *)

Lemma Qfloor_unique (x : Q) (z : Z) :
  (inject_Z z <= x)%Q -> (x < inject_Z (z + 1))%Q -> Qfloor x = z.
Proof.
  intros Hle Hlt.
  assert (z <= Qfloor x) as H1.
  { rewrite <- (Qfloor_Z z). now apply Qfloor_resp_le. }
  assert (Qfloor x < z + 1) as H2.
  { rewrite Zlt_Qlt. eapply Qle_lt_trans; [apply Qfloor_le | exact Hlt]. }
  lia.
Qed.


Lemma Math_round_nearest (x : Q) :
  (x - (1 # 2) < inject_Z (Math_round x) <= x + (1 # 2))%Q.
Proof.
  unfold Math_round.
  pose proof (Qfloor_le (x + (1 # 2))) as H1.
  pose proof (Qlt_floor (x + (1 # 2))) as H2.
  rewrite inject_Z_plus in H2. change (inject_Z 1) with 1%Q in H2.
  split; lra.
Qed.

Lemma Math_round_nonneg (x : Q) : (0 <= x)%Q -> 0 <= Math_round x.
Proof.
  intros Hx. unfold Math_round.
  change 0 with (Qfloor 0). apply Qfloor_resp_le. lra.
Qed.



Lemma sector_nonneg (deg : Q) :
  (0 <= deg)%Q -> 0 <= Math_round (deg / (45 # 2))%Q.
Proof.
  intros Hd. apply Math_round_nonneg.
  apply Qle_shift_div_l; lra.
Qed.

Lemma compassIndex_range (deg : Q) :
  (0 <= deg)%Q -> 0 <= compassIndex deg < 16.
Proof.
  intros Hd. unfold compassIndex.
  pose proof (sector_nonneg deg Hd) as Hr.
  rewrite Z.rem_mod_nonneg by lia.
  apply Z.mod_pos_bound. lia.
Qed.

Lemma index_dirs (i : Z) :
  0 <= i < 16 ->
  exists label, index dirs i = Some label /\ In label dirs
                /\ nth_error dirs (Z.to_nat i) = Some label.
Proof.
  intros Hi. unfold index.
  destruct (Z.ltb_spec i 0) as [Hneg | _]; [lia |].
  destruct (nth_error dirs (Z.to_nat i)) as [label |] eqn:E.
  - exists label. repeat split; trivial. eapply nth_error_In; eassumption.
  - apply nth_error_None in E. simpl in E. lia.
Qed.


Lemma forallb_below (P : Z -> bool) (len : nat) :
  forallb P (map Z.of_nat (seq 0 len)) = true ->
  forall n, 0 <= n < Z.of_nat len -> P n = true.
Proof.
  intros H n Hn. rewrite forallb_forall in H. apply H.
  apply in_map_iff. exists (Z.to_nat n).
  split; [lia | apply in_seq; lia].
Qed.

Lemma sameLabel_eq (a b : option string) :
  Double.sameLabel a b = true -> a = b.
Proof.
  destruct a as [x |], b as [y |]; cbn [Double.sameLabel]; intros H;
    try discriminate H; [| reflexivity].
  apply String.eqb_eq in H. now subst.
Qed.





(** C10.  For every nonnegative [deg] the index
    [Math.round(deg / 22.5) % 16] lies in [[0, 16)], so the read of [dirs]
    is in bounds and yields one of the sixteen labels.  The bound rests on
    [deg >= 0]: negative degrees are not normalised, and for some of them
    the index is negative and the read yields [undefined]. *)
Theorem degToCompass_in_bounds :
  (forall deg : Q,
      (0 <= deg)%Q ->
      0 <= compassIndex deg < 16
      /\ exists label, degToCompass deg = Some label /\ In label dirs)
  /\ (exists deg : Q,
         (deg < 0)%Q /\ compassIndex deg < 0 /\ degToCompass deg = None).
Proof.
  split.
  - intros deg Hd.
    pose proof (compassIndex_range deg Hd) as Hi.
    split; [exact Hi |].
    destruct (index_dirs _ Hi) as (label & Hl & Hin & _).
    exists label. auto.
  - exists (- (90))%Q.
    split; [unfold Qlt; simpl; lia |].
    split; [vm_compute; reflexivity | reflexivity].
Qed.

Lemma degToCompass_in_bounds_witness :
  (0 <= 90)%Q
  /\ 0 <= compassIndex 90%Q < 16
  /\ exists label, degToCompass 90%Q = Some label /\ In label dirs.
Proof.
  assert (0 <= 90)%Q as Hd by (unfold Qle; simpl; lia).
  split; [exact Hd |].
  apply (proj1 degToCompass_in_bounds 90%Q Hd).
Defined.

(* ================================================================= *)
(** ** The weather-code table and the current view *)

Lemma inject_Z_eq (a b : Z) : (inject_Z a == inject_Z b)%Q -> a = b.
Proof. unfold Qeq. simpl. lia. Qed.

Lemma lookup_code_hit (table : list (Z * string)) (code : Q) (k : Z)
    (l : string) :
  NoDup (map fst table) ->
  In (k, l) table ->
  (code == inject_Z k)%Q ->
  lookup_code table code = Some l.
Proof.
  unfold lookup_code.
  induction table as [| [k0 l0] table IH]; intros Hnd Hin Hcode;
    [contradiction |].
  inversion Hnd as [| ? ? Hnotin Hnd']; subst.
  simpl. destruct (Qeq_bool code (inject_Z k0)) eqn:E.
  - apply Qeq_bool_iff in E. rewrite Hcode in E.
    apply inject_Z_eq in E. subst k0.
    destruct Hin as [Heq | Hin]; [inversion Heq; reflexivity |].
    exfalso. apply Hnotin. change k with (fst (k, l)). now apply in_map.
  - destruct Hin as [Heq | Hin].
    + inversion Heq; subst.
      apply Qeq_bool_iff in Hcode. simpl in E. congruence.
    + now apply IH.
Qed.

Lemma lookup_code_miss (table : list (Z * string)) (code : Q) :
  (forall k l, In (k, l) table -> ~ (code == inject_Z k)%Q) ->
  lookup_code table code = None.
Proof.
  unfold lookup_code.
  induction table as [| [k0 l0] table IH]; intros Hmiss; [reflexivity |].
  simpl. destruct (Qeq_bool code (inject_Z k0)) eqn:E.
  - apply Qeq_bool_iff in E. exfalso.
    apply (Hmiss k0 l0); [now left | exact E].
  - apply IH. intros k l Hin. apply (Hmiss k l). now right.
Qed.

Lemma WEATHER_CODE_keys : NoDup (map fst WEATHER_CODE).
Proof.
  simpl. repeat (constructor; [simpl; intuition discriminate |]).
  constructor.
Qed.

Lemma WEATHER_CODE_labels :
  forall k l, In (k, l) WEATHER_CODE -> l <> EmptyString.
Proof.
  intros k l Hin. simpl in Hin.
  repeat (destruct Hin as [Heq | Hin];
          [inversion Heq; subst; discriminate |]).
  contradiction.
Qed.

Lemma or_else_some (l d : string) :
  l <> EmptyString -> or_else (Some l) d = l.
Proof. destruct l; [congruence | reflexivity]. Qed.

(** C7.  [current] is [null] exactly when there is no snapshot.
    Otherwise the temperature and the apparent temperature are kept in
    Celsius or turned into [c * 9 / 5 + 32] for Fahrenheit; humidity, wind
    speed, wind direction and the weather code are passed on as they are;
    the day flag is passed on as its truth value; the label is the table's
    entry for the weather code, and ["—"] for every code that is not a key
    of the table; the unit symbol is ["°C"] or ["°F"]. *)
Theorem current_view (weather : option WeatherData.t) (u : Unit) :
  (current weather u = None <-> weather = None)
  /\ forall w,
      weather = Some w ->
      let c := WeatherData.current w in
      exists v,
        current weather u = Some v
        /\ CurrentView.temp v =
             match u with
             | C => CurrentWeather.temperature_2m c
             | F => (CurrentWeather.temperature_2m c * 9 / 5 + 32)%Q
             end
        /\ CurrentView.feels v =
             match u with
             | C => CurrentWeather.apparent_temperature c
             | F => (CurrentWeather.apparent_temperature c * 9 / 5 + 32)%Q
             end
        /\ CurrentView.humidity v = CurrentWeather.relative_humidity_2m c
        /\ CurrentView.wind v = CurrentWeather.wind_speed_10m c
        /\ CurrentView.windDir v = CurrentWeather.wind_direction_10m c
        /\ CurrentView.wcode v = CurrentWeather.weather_code c
        /\ (CurrentView.isDay v = true
            <-> ~ (CurrentWeather.is_day c == 0)%Q)
        /\ (forall k l,
               In (k, l) WEATHER_CODE ->
               (CurrentWeather.weather_code c == inject_Z k)%Q ->
               CurrentView.label v = l)
        /\ ((forall k l,
                In (k, l) WEATHER_CODE ->
                ~ (CurrentWeather.weather_code c == inject_Z k)%Q) ->
            CurrentView.label v = "—")
        /\ CurrentView.unitSymbol v =
             match u with C => "°C" | F => "°F" end.
Proof.
  split.
  - unfold current. destruct weather; simpl; split; intros H; congruence.
  - intros w -> c. eexists. split; [reflexivity |].
    cbn [CurrentView.temp CurrentView.feels CurrentView.humidity
         CurrentView.wind CurrentView.windDir CurrentView.wcode
         CurrentView.isDay CurrentView.label CurrentView.unitSymbol].
    fold c.
    split; [now destruct u |].
    split; [now destruct u |].
    do 4 (split; [reflexivity |]).
    split; [| split; [| split]].
    + unfold truthy. split.
      * intros H Hz. apply Qeq_bool_iff in Hz. rewrite Hz in H.
        discriminate.
      * intros H.
        destruct (Qeq_bool (CurrentWeather.is_day c) 0) eqn:E;
          [| reflexivity].
        apply Qeq_bool_iff in E. contradiction.
    + intros k l Hin Hcode.
      rewrite (lookup_code_hit _ _ k l WEATHER_CODE_keys Hin Hcode).
      apply or_else_some. eapply WEATHER_CODE_labels; eassumption.
    + intros Hmiss. now rewrite (lookup_code_miss _ _ Hmiss).
    + now destruct u.
Qed.

Lemma current_view_witness :
  exists v,
    current (Some sampleWeather) F = Some v
    /\ CurrentView.temp v = (20 * 9 / 5 + 32)%Q
    /\ CurrentView.unitSymbol v = "°F".
Proof.
  destruct (proj2 (current_view (Some sampleWeather) F)
              sampleWeather eq_refl)
    as (v & Hv & Ht & _ & _ & _ & _ & _ & _ & _ & _ & Hs).
  exists v. repeat split; assumption.
Defined.

(* ================================================================= *)
(** ** The hourly view *)

Lemma skipn_nth_error {A : Type} (l : list A) (i : nat) (x : A) :
  nth_error l i = Some x -> skipn i l = x :: skipn (S i) l.
Proof.
  revert i. induction l as [| a l IH]; intros [| i] H; simpl in *;
    try discriminate.
  - now inversion H.
  - now apply IH.
Qed.

Section HourlyView.

Variable getTime : string -> option Z.
Variable h : HourlyWeather.t.
Variable u : Unit.
Variable now : Z.

Lemma upcomingFrom_end (i : nat) :
  (List.length (HourlyWeather.time h) <= i)%nat ->
  upcomingFrom getTime h u now i = [].
Proof.
  intros Hi. unfold upcomingFrom.
  now rewrite (skipn_all2 _ Hi).
Qed.

Lemma upcomingFrom_step (i : nat) (ti : string) :
  nth_error (HourlyWeather.time h) i = Some ti ->
  upcomingFrom getTime h u now i =
    ((if at_or_after (getTime ti) now then [hourItem h u i ti] else [])
       ++ upcomingFrom getTime h u now (S i))%list.
Proof.
  intros Hti. unfold upcomingFrom.
  rewrite (skipn_nth_error _ _ _ Hti).
  cbn [List.length seq combine filter snd fst map app].
  destruct (at_or_after (getTime ti) now); reflexivity.
Qed.

Lemma next12Hours_loop_upcoming (fuel : nat) :
  forall (i : nat) (items : list HourView.t),
    (List.length items <= 12)%nat ->
    (List.length (HourlyWeather.time h) <= i + fuel)%nat ->
    next12Hours_loop getTime fuel h u now i items
    = firstn 12 (items ++ upcomingFrom getTime h u now i)%list.
Proof.
  induction fuel as [| fuel IH]; intros i items Hitems Hfuel.
  - cbn [next12Hours_loop].
    rewrite upcomingFrom_end by lia.
    rewrite app_nil_r. symmetry. now apply firstn_all2.
  - cbn [next12Hours_loop].
    destruct (Nat.ltb_spec i (List.length (HourlyWeather.time h)))
      as [Hi | Hi]; cbn [andb].
    + destruct (Nat.ltb_spec (List.length items) 12) as [Hlt | Hge].
      * destruct (nth_error (HourlyWeather.time h) i) as [ti |] eqn:Hti.
        -- rewrite (upcomingFrom_step i ti Hti).
           destruct (at_or_after (getTime ti) now).
           ++ rewrite IH; [| rewrite length_app; simpl; lia | lia].
              now rewrite <- app_assoc.
           ++ now rewrite IH by lia.
        -- apply nth_error_None in Hti. lia.
      * assert (List.length items = 12%nat) as Hlen by lia.
        rewrite firstn_app, Hlen, Nat.sub_diag, firstn_O, app_nil_r.
        symmetry. apply firstn_all2. lia.
    + rewrite upcomingFrom_end by lia.
      rewrite app_nil_r. symmetry. now apply firstn_all2.
Qed.

Lemma upcomingFrom_0 :
  upcomingFrom getTime h u now 0 =
    map (fun p => hourItem h u (fst p) (snd p))
      (filter (fun p => at_or_after (getTime (snd p)) now)
         (positions (HourlyWeather.time h))).
Proof. reflexivity. Qed.

(** Every entry of the view stands for a position of the series. *)
Lemma upcoming_entry (item : HourView.t) :
  In item (upcomingFrom getTime h u now 0) ->
  exists i,
    nth_error (HourlyWeather.time h) i = Some (HourView.time item)
    /\ at_or_after (getTime (HourView.time item)) now = true
    /\ item = hourItem h u i (HourView.time item).
Proof.
  rewrite upcomingFrom_0. intros Hin.
  apply in_map_iff in Hin. destruct Hin as ([i ti] & <- & Hin).
  apply filter_In in Hin. destruct Hin as (Hpos & Hq).
  cbn [fst snd] in *. exists i.
  split; [| split; [exact Hq | reflexivity]].
  unfold positions in Hpos.
  apply In_nth_error in Hpos. destruct Hpos as (n & Hn).
  (* the n-th pair of [combine (seq 0 _) l] is [(n, l[n])] *)
  assert (forall (l : list string) (s n : nat) (p : nat * string),
             nth_error (combine (seq s (List.length l)) l) n = Some p ->
             fst p = (s + n)%nat /\ nth_error l n = Some (snd p)) as Hc.
  { clear. induction l as [| a l IHl]; intros s [| n] p Hp;
      cbn in Hp; try discriminate.
    - inversion Hp; subst. cbn. split; [lia | reflexivity].
    - destruct (IHl (S s) n p Hp) as (H1 & H2).
      split; [lia | exact H2]. }
  destruct (Hc _ 0%nat n _ Hn) as (H1 & H2). cbn [fst snd] in *.
  now subst.
Qed.

End HourlyView.

Lemma Some_inj {A : Type} (a b : A) : Some a = Some b -> a = b.
Proof. intros H. now injection H. Qed.

Lemma firstn_incl {A : Type} (n : nat) (l : list A) (x : A) :
  In x (firstn n l) -> In x l.
Proof.
  intros H. rewrite <- (firstn_skipn n l). apply in_or_app. now left.
Qed.

Lemma hourItem_fields (h : HourlyWeather.t) (u : Unit) (i : nat)
    (ti : string) :
  HourView.time (hourItem h u i ti) = ti
  /\ HourView.temp (hourItem h u i ti) =
       match u, nth_error (HourlyWeather.temperature_2m h) i with
       | C, Some c => Num c
       | F, Some c => Num (c * 9 / 5 + 32)%Q
       | C, None => Undefined
       | F, None => NaN
       end
  /\ HourView.pop (hourItem h u i ti) =
       match HourlyWeather.precipitation_probability h with
       | Some a =>
           match nth_error a i with
           | Some p => p
           | None => 0%Q
           end
       | None => 0%Q
       end.
Proof.
  unfold hourItem, read, nullish.
  cbn [HourView.time HourView.temp HourView.pop].
  split; [reflexivity |]. split.
  - destruct u, (nth_error (HourlyWeather.temperature_2m h) i); reflexivity.
  - destruct (HourlyWeather.precipitation_probability h); reflexivity.
Qed.

Lemma next12Hours_eq (getTime : string -> option Z)
    (weather : option WeatherData.t) (u : Unit) (now : Z) :
  next12Hours getTime weather u now
  = deriveUpcomingHours getTime weather u now.
Proof.
  unfold next12Hours, deriveUpcomingHours.
  destruct weather as [w |]; [| reflexivity]. cbn [option_map].
  rewrite next12Hours_loop_upcoming by (simpl; lia).
  reflexivity.
Qed.

(** C4.  [next12Hours] is the view the specification calls
    [deriveUpcomingHours]: the entries of the hourly series whose timestamp
    is at or after [now], in the order of the series, cut to the first
    twelve.  It has at most twelve entries; each stands for a position [i]
    of the series and carries the timestamp at [i], the temperature at [i]
    (as it is for Celsius, [c * 9 / 5 + 32] for Fahrenheit) and the
    precipitation probability at [i], 0 when the series has none.  For
    the timestamps 10:00 and 11:00 of 2024-01-01 and [now] at 10:30, the
    view is exactly the 11:00 entry. *)
Theorem next12Hours_upcoming (getTime : string -> option Z)
    (weather : option WeatherData.t) (u : Unit) (now : Z) :
  next12Hours getTime weather u now
  = deriveUpcomingHours getTime weather u now
  /\ (List.length (next12Hours getTime weather u now) <= 12)%nat
  /\ (forall item,
         In item (next12Hours getTime weather u now) ->
         exists w i,
           weather = Some w
           /\ nth_error (HourlyWeather.time (WeatherData.hourly w)) i
              = Some (HourView.time item)
           /\ at_or_after (getTime (HourView.time item)) now = true
           /\ HourView.temp item =
                match u,
                      nth_error (HourlyWeather.temperature_2m
                                   (WeatherData.hourly w)) i
                with
                | C, Some c => Num c
                | F, Some c => Num (c * 9 / 5 + 32)%Q
                | C, None => Undefined
                | F, None => NaN
                end
           /\ HourView.pop item =
                match HourlyWeather.precipitation_probability
                        (WeatherData.hourly w)
                with
                | Some a =>
                    match nth_error a i with
                    | Some p => p
                    | None => 0%Q
                    end
                | None => 0%Q
                end)
  /\ (forall (offset : Z) (w : WeatherData.t) (at1030 : Z),
         HourlyWeather.time (WeatherData.hourly w)
         = [ "2024-01-01T10:00"; "2024-01-01T11:00" ] ->
         isoLocal offset "2024-01-01T10:30" = Some at1030 ->
         next12Hours (isoLocal offset) (Some w) u at1030
         = [ hourItem (WeatherData.hourly w) u 1 "2024-01-01T11:00" ]).
Proof.
  split; [apply next12Hours_eq |].
  split.
  { rewrite next12Hours_eq. unfold deriveUpcomingHours.
    destruct weather; [apply firstn_le_length | simpl; lia]. }
  split.
  { intros item. rewrite next12Hours_eq. unfold deriveUpcomingHours.
    destruct weather as [w |]; [| contradiction].
    intros Hin. apply firstn_incl in Hin.
    destruct (upcoming_entry getTime (WeatherData.hourly w) u now item Hin)
      as (i & Hi & Hq & Hitem).
    exists w, i. split; [reflexivity |]. split; [exact Hi |].
    split; [exact Hq |].
    destruct (hourItem_fields (WeatherData.hourly w) u i
                (HourView.time item)) as (_ & Ht & Hp).
    rewrite <- Hitem in Ht, Hp. split; assumption. }
  intros offset w at1030 Htime Hnow.
  rewrite next12Hours_eq. unfold deriveUpcomingHours.
  rewrite Htime. unfold isoLocal in *.
  replace (wallClockMinutes "2024-01-01T10:30") with (Some 28401750)
    in Hnow by (vm_compute; reflexivity).
  cbv beta iota in Hnow. apply Some_inj in Hnow. subst at1030.
  cbn [positions List.length seq combine filter snd fst].
  replace (wallClockMinutes "2024-01-01T10:00") with (Some 28401720)
    by (vm_compute; reflexivity).
  replace (wallClockMinutes "2024-01-01T11:00") with (Some 28401780)
    by (vm_compute; reflexivity).
  unfold at_or_after.
  destruct (Z.leb_spec ((28401750 - offset) * 60000)
              ((28401720 - offset) * 60000)); [lia |].
  destruct (Z.leb_spec ((28401750 - offset) * 60000)
              ((28401780 - offset) * 60000)); [| lia].
  reflexivity.
Qed.

Lemma next12Hours_upcoming_witness :
  next12Hours (isoLocal 0) (Some sampleWeather) F 1704105000000
  = [ {| HourView.time := "2024-01-01T11:00";
         HourView.temp := Num (21 * 9 / 5 + 32)%Q;
         HourView.pop := 0%Q |} ].
Proof.
  assert (isoLocal 0 "2024-01-01T10:30" = Some 1704105000000) as Hnow
    by (vm_compute; reflexivity).
  assert (HourlyWeather.time (WeatherData.hourly sampleWeather)
          = [ "2024-01-01T10:00"; "2024-01-01T11:00" ]) as Htime
    by reflexivity.
  rewrite (proj2 (proj2 (proj2
             (next12Hours_upcoming (isoLocal 0) (Some sampleWeather) F
                1704105000000)))
             0 sampleWeather 1704105000000 Htime Hnow).
  reflexivity.
Defined.

(* ================================================================= *)
(** ** One step of the component *)

(** Reads a field of the world a handler returns.  The goal is stated on
    fields, so that only the field asked for is computed. *)
Ltac handlers :=
  cbn [onChange queryEffect clearTimeout setTimeout lookup abort
       lookup_resume lookup_catch handlePick handlePick_resume tried
       abortError console_error withUi setGeo setWx setTimer setAbortRef
       setClock setQuery setSuggestions setSelectedPlace setWeather
       setUnit setLoading setError
       ui abortRef clock timer geoRequests geoPending geoAborted
       wxRequests wxPending console query suggestions selectedPlace weather
       unit loading error].

(** Splits [step t e w = Some w'] into the cases of [step], leaving in
    each the equation that defines [w']. *)
Ltac step_inv H :=
  unfold step in H;
  match type of H with
  | (if ?c then _ else _) = _ =>
      let Hc := fresh "Hclock" in
      destruct c eqn:Hc; [discriminate H |];
      apply Z.ltb_ge in Hc
  end;
  cbn [ui abortRef clock timer geoRequests geoPending geoAborted
       wxRequests wxPending console setClock] in H.

Lemma step_clock (t : Z) (e : event) (w w' : World) :
  step t e w = Some w' -> clock w <= t.
Proof. intros H. step_inv H. exact Hclock. Qed.

Lemma lookup_resume_frame (o : outcome (option (list Place.t)))
    (w : World) :
  let w' := lookup_resume o w in
  abortRef w' = abortRef w /\ clock w' = clock w /\ timer w' = timer w
  /\ geoRequests w' = geoRequests w /\ geoPending w' = geoPending w
  /\ geoAborted w' = geoAborted w /\ wxRequests w' = wxRequests w
  /\ wxPending w' = wxPending w
  /\ query (ui w') = query (ui w)
  /\ selectedPlace (ui w') = selectedPlace (ui w)
  /\ weather (ui w') = weather (ui w) /\ unit (ui w') = unit (ui w)
  /\ loading (ui w') = loading (ui w) /\ error (ui w') = error (ui w).
Proof.
  destruct o as [[e |] | | [e |] | data]; handlers;
    try destruct (negb (String.eqb (JsError.name e) "AbortError"));
    handlers; repeat split; reflexivity.
Qed.

Lemma handlePick_frame (place : option Place.t) (w : World) :
  let w' := handlePick place w in
  abortRef w' = abortRef w /\ clock w' = clock w /\ timer w' = timer w
  /\ geoRequests w' = geoRequests w /\ geoPending w' = geoPending w
  /\ geoAborted w' = geoAborted w /\ console w' = console w
  /\ query (ui w') = query (ui w) /\ unit (ui w') = unit (ui w)
  /\ suggestions (ui w') = [] /\ error (ui w') = EmptyString
  /\ selectedPlace (ui w') = place.
Proof.
  destruct place; handlers; repeat split; reflexivity.
Qed.

Lemma handlePick_resume_frame (o : outcome WeatherData.t) (w : World) :
  let w' := handlePick_resume o w in
  abortRef w' = abortRef w /\ clock w' = clock w /\ timer w' = timer w
  /\ geoRequests w' = geoRequests w /\ geoPending w' = geoPending w
  /\ geoAborted w' = geoAborted w /\ console w' = console w
  /\ wxRequests w' = wxRequests w /\ wxPending w' = wxPending w
  /\ query (ui w') = query (ui w) /\ unit (ui w') = unit (ui w)
  /\ suggestions (ui w') = suggestions (ui w)
  /\ selectedPlace (ui w') = selectedPlace (ui w)
  /\ loading (ui w') = false.
Proof.
  destruct o as [[e |] | | [e |] | data]; handlers;
    repeat split; reflexivity.
Qed.

(** What an event other than a change of the query or the timeout leaves
    as it was: the query, the timer and the log of lookups. *)
Lemma step_search_frame (t : Z) (e : event) (w w' : World) :
  step t e w = Some w' ->
  match e with
  | Change _ | TimerFires => True
  | _ =>
      query (ui w') = query (ui w) /\ timer w' = timer w
      /\ geoRequests w' = geoRequests w
  end.
Proof.
  intros H. step_inv H.
  destruct e as [q | | id o | id msg | | i | id o | u]; trivial.
  - destruct (mem id (geoPending w)); [| discriminate].
    apply Some_inj in H. subst w'.
    match goal with
    | |- context [lookup_resume ?o ?w0] =>
        destruct (lookup_resume_frame o w0)
          as (_ & _ & Ht & Hr & _ & _ & _ & _ & Hq & _)
    end.
    rewrite Hq, Ht, Hr. handlers. auto.
  - destruct (mem id (geoAborted w)); [| discriminate].
    apply Some_inj in H. subst w'.
    match goal with
    | |- context [lookup_resume ?o ?w0] =>
        destruct (lookup_resume_frame o w0)
          as (_ & _ & Ht & Hr & _ & _ & _ & _ & Hq & _)
    end.
    rewrite Hq, Ht, Hr. handlers. auto.
  - destruct (suggestions (ui w)) as [| p ps]; apply Some_inj in H;
      subst w'; [handlers; auto |].
    match goal with
    | |- context [handlePick ?p ?w0] =>
        destruct (handlePick_frame p w0)
          as (_ & _ & Ht & Hr & _ & _ & _ & Hq & _)
    end.
    rewrite Hq, Ht, Hr. handlers. auto.
  - destruct (nth_error (suggestions (ui w)) i) as [p |]; [| discriminate].
    apply Some_inj in H. subst w'.
    match goal with
    | |- context [handlePick ?p ?w0] =>
        destruct (handlePick_frame p w0)
          as (_ & _ & Ht & Hr & _ & _ & _ & Hq & _)
    end.
    rewrite Hq, Ht, Hr. handlers. auto.
  - destruct (mem id (wxPending w)); [| discriminate].
    apply Some_inj in H. subst w'.
    match goal with
    | |- context [handlePick_resume ?o ?w0] =>
        destruct (handlePick_resume_frame o w0)
          as (_ & _ & Ht & Hr & _ & _ & _ & _ & _ & Hq & _)
    end.
    rewrite Hq, Ht, Hr. handlers. auto.
  - apply Some_inj in H. subst w'. handlers. auto.
Qed.

(** An invariant of [step] holds along every run. *)
Lemma run_invariant (P : World -> Prop) :
  (forall t e w w', P w -> step t e w = Some w' -> P w') ->
  forall tr w w', P w -> run tr w = Some w' -> P w'.
Proof.
  intros Hstep. induction tr as [| [t e] tr IH]; intros w w' HP Hrun;
    cbn [run] in Hrun.
  - apply Some_inj in Hrun. now subst.
  - destruct (step t e w) as [w1 |] eqn:E; [| discriminate].
    eapply IH; [eapply Hstep; eassumption | exact Hrun].
Qed.

Lemma reachable_invariant (P : World -> Prop) :
  P initialWorld ->
  (forall t e w w', P w -> step t e w = Some w' -> P w') ->
  forall w, reachable w -> P w.
Proof.
  intros H0 Hstep w (tr & Hrun).
  exact (run_invariant P Hstep tr initialWorld w H0 Hrun).
Qed.

(* ================================================================= *)
(** ** The unit buttons *)

(** C9, as the specification states it, does not hold: the hourly list
    is not a function of the snapshot and the unit.  With London's
    forecast loaded just after ten, the list holds the entry of eleven
    o'clock; after a switch to Fahrenheit and, at half past eleven, back
    to Celsius, the snapshot and the unit are what they were and the list
    is empty. *)
Lemma unit_toggle_views_counterexample :
  ~ (exists view : option WeatherData.t -> Unit -> list HourView.t,
        forall tr w shown,
          shownAfter (isoLocal 0) tr initialWorld [] = Some (w, shown) ->
          shown = view (weather (ui w)) (unit (ui w))).
Proof.
  intros (view & Hview).
  assert (match shownAfter (isoLocal 0) londonLoaded initialWorld [] with
          | Some (w, shown) =>
              weather (ui w) = Some sampleWeather /\ unit (ui w) = C
              /\ List.length shown = 1%nat
          | None => False
          end) as H1 by (vm_compute; repeat split).
  assert (match shownAfter (isoLocal 0) (londonLoaded ++ thereAndBack)
                  initialWorld [] with
          | Some (w, shown) =>
              weather (ui w) = Some sampleWeather /\ unit (ui w) = C
              /\ List.length shown = 0%nat
          | None => False
          end) as H2 by (vm_compute; repeat split).
  destruct (shownAfter (isoLocal 0) londonLoaded initialWorld [])
    as [[w1 s1] |] eqn:E1; [| contradiction].
  destruct (shownAfter (isoLocal 0) (londonLoaded ++ thereAndBack)
              initialWorld [])
    as [[w2 s2] |] eqn:E2; [| contradiction].
  destruct H1 as (Hw1 & Hu1 & Hl1). destruct H2 as (Hw2 & Hu2 & Hl2).
  pose proof (Hview _ _ _ E1) as V1. pose proof (Hview _ _ _ E2) as V2.
  rewrite Hw1, Hu1 in V1. rewrite Hw2, Hu2 in V2.
  rewrite V1 in Hl1. rewrite V2 in Hl2. rewrite Hl1 in Hl2.
  discriminate Hl2.
Qed.

(** C9, amended.  A click on a unit button changes the [unit] cell and
    nothing else: the stored snapshot, the query, the suggestion list, the
    selected place, the loading flag and the error slot are as before, and
    so are the timer, the requests and the console; clicking back restores
    the state.  The current view after the click is the view of the same
    snapshot in the new unit.  The hourly list is kept when the click is
    on the unit already chosen; otherwise the memo runs again, on the same
    snapshot, in the new unit and with the clock reading of the click.  At
    one clock reading the unit changes neither the hours listed nor their
    precipitation probabilities. *)
Theorem unit_toggle_frame (t : Z) (u : Unit) (w w' : World) :
  step t (UnitButton u) w = Some w' ->
  unit (ui w') = u
  /\ weather (ui w') = weather (ui w)
  /\ query (ui w') = query (ui w)
  /\ suggestions (ui w') = suggestions (ui w)
  /\ selectedPlace (ui w') = selectedPlace (ui w)
  /\ loading (ui w') = loading (ui w)
  /\ error (ui w') = error (ui w)
  /\ (abortRef w' = abortRef w /\ timer w' = timer w
      /\ geoRequests w' = geoRequests w /\ geoPending w' = geoPending w
      /\ geoAborted w' = geoAborted w /\ wxRequests w' = wxRequests w
      /\ wxPending w' = wxPending w /\ console w' = console w)
  /\ currentOf (ui w') = current (weather (ui w)) u
  /\ (forall getTime shown,
         next12Hours_memo getTime (UnitButton u) w w' shown
         = if sameUnit u (unit (ui w))
           then shown
           else next12Hours getTime (weather (ui w)) u t)
  /\ (forall getTime now,
         map HourView.time (next12Hours getTime (weather (ui w)) u now)
         = map HourView.time
             (next12Hours getTime (weather (ui w)) (unit (ui w)) now)
         /\ map HourView.pop (next12Hours getTime (weather (ui w)) u now)
            = map HourView.pop
                (next12Hours getTime (weather (ui w)) (unit (ui w)) now))
  /\ (forall t2 w2,
         step t2 (UnitButton (unit (ui w))) w' = Some w2 -> ui w2 = ui w).
Proof.
  intros H. step_inv H. apply Some_inj in H. subst w'.
  unfold currentOf, next12Hours_memo, depsChanged. handlers.
  do 7 (split; [reflexivity |]).
  split; [repeat split; reflexivity |].
  split; [reflexivity |].
  split; [intros getTime shown;
          destruct (sameUnit u (unit (ui w))); reflexivity |].
  split.
  - intros getTime now. rewrite !next12Hours_eq.
    unfold deriveUpcomingHours.
    destruct (weather (ui w)) as [wx |]; [| split; reflexivity].
    cbv zeta. rewrite <- !firstn_map, !map_map. split; reflexivity.
  - intros t2 w2 H2. step_inv H2. apply Some_inj in H2. subst w2.
    handlers. now destruct (ui w).
Qed.

Lemma unit_toggle_frame_witness :
  reachable londonShown
  /\ exists w',
      step (tenOClock + 1800000) (UnitButton F) londonShown = Some w'
      /\ unit (ui w') = F
      /\ weather (ui w') = Some sampleWeather
      /\ next12Hours_memo (isoLocal 0) (UnitButton F) londonShown w' []
         = [ {| HourView.time := "2024-01-01T11:00";
                HourView.temp := Num (21 * 9 / 5 + 32)%Q;
                HourView.pop := 0%Q |} ].
Proof.
  split; [exists londonLoaded; vm_compute; reflexivity |].
  assert (exists w', step (tenOClock + 1800000) (UnitButton F) londonShown
                     = Some w') as (w' & Hstep)
    by (eexists; reflexivity).
  exists w'. split; [exact Hstep |].
  destruct (unit_toggle_frame _ F londonShown w' Hstep)
    as (Hu & Hw & _ & _ & _ & _ & _ & _ & _ & Hm & _).
  split; [exact Hu |]. split; [exact Hw |].
  rewrite Hm. vm_compute. reflexivity.
Defined.

(* ================================================================= *)
(** ** The empty query *)

(** With no timer pending, no lookup is issued until the query changes. *)
Lemma quiet_no_lookup (tr : list (Z * event)) :
  forall w w',
    timer w = None ->
    quiet tr = true ->
    run tr w = Some w' ->
    geoRequests w' = geoRequests w /\ timer w' = None.
Proof.
  induction tr as [| [t e] tr IH]; intros w w' Htimer Hq Hrun;
    cbn [run] in Hrun.
  - apply Some_inj in Hrun. subst. auto.
  - destruct (step t e w) as [w1 |] eqn:E; [| discriminate].
    pose proof (step_search_frame t e w w1 E) as Hf.
    destruct e as [q | | id o | id msg | | i | id o | u];
      cbn [quiet] in Hq; try discriminate Hq.
    1: { step_inv E. rewrite Htimer in E. discriminate E. }
    all: destruct Hf as (_ & Ht & Hr);
      destruct (IH w1 w') as (Hr' & Ht');
      [congruence | exact Hq | exact Hrun |];
      split; congruence.
Qed.

(** C6.  When the query becomes the empty string, the suggestion list is
    emptied at once, the pending timer is dropped and none is started, and
    no lookup request is issued: none by the change itself, and none
    afterwards for as long as the query does not change again. *)
Theorem empty_query_clears (t : Z) (w w' : World) :
  query (ui w) <> EmptyString ->
  step t (Change EmptyString) w = Some w' ->
  query (ui w') = EmptyString
  /\ suggestions (ui w') = []
  /\ timer w' = None
  /\ geoRequests w' = geoRequests w
  /\ geoPending w' = geoPending w
  /\ (forall t', step t' TimerFires w' = None)
  /\ (forall tr w'',
         quiet tr = true ->
         run tr w' = Some w'' ->
         geoRequests w'' = geoRequests w /\ timer w'' = None).
Proof.
  intros Hq H. step_inv H. apply Some_inj in H.
  assert (w' = withUi (setSuggestions [])
                 (setTimer None
                    (withUi (setQuery EmptyString) (setClock t w))))
    as Hw'.
  { rewrite <- H. unfold onChange. cbn [ui setClock query].
    destruct (String.eqb_spec EmptyString (query (ui w))) as [E | _];
      [congruence | reflexivity]. }
  clear H. subst w'. handlers.
  do 5 (split; [reflexivity |]).
  split.
  - intros t'. unfold step. handlers.
    destruct (t' <? t); reflexivity.
  - intros tr w'' Hquiet Hrun.
    destruct (fun Ht0 => quiet_no_lookup tr _ w'' Ht0 Hquiet Hrun)
      as (Hr & Ht); [reflexivity |].
    split; [exact Hr | exact Ht].
Qed.

Lemma empty_query_clears_witness :
  run lonAnswered initialWorld = Some afterLon
  /\ query (ui afterLon) <> EmptyString
  /\ suggestions (ui afterLon) = [london]
  /\ exists w',
      step 500 (Change EmptyString) afterLon = Some w'
      /\ suggestions (ui w') = []
      /\ timer w' = None
      /\ geoRequests w' = geoRequests afterLon.
Proof.
  assert (query (ui afterLon) <> EmptyString) as Hne by discriminate.
  split; [reflexivity |].
  split; [exact Hne |].
  split; [reflexivity |].
  eexists. split; [reflexivity |].
  destruct (empty_query_clears 500 afterLon _ Hne eq_refl)
    as (_ & Hs & Ht & Hr & _).
  repeat split; assumption.
Defined.

(* ================================================================= *)
(** ** The suggestion list *)

Lemma lookup_catch_uriError (w : World) :
  lookup_catch uriError w = console_error uriError w.
Proof. reflexivity. Qed.

(** What the timeout callback leaves as it was, and what it adds: a
    request, or a line on the console when the URL cannot be built. *)
Lemma lookup_frame (q : string) (w : World) :
  let w' := lookup q w in
  ui w' = ui w /\ clock w' = clock w /\ timer w' = timer w
  /\ console w'
     = (if loneSurrogate q then console w ++ [uriError] else console w)%list
  /\ wxRequests w' = wxRequests w
  /\ wxPending w' = wxPending w
  /\ geoRequests w'
     = (if loneSurrogate q
        then geoRequests w
        else geoRequests w ++ [geoRequest q])%list
  /\ abortRef w' = Some (List.length (geoRequests w)).
Proof.
  unfold lookup. rewrite lookup_catch_uriError.
  destruct (abortRef w) as [c |]; unfold abort;
    [destruct (mem c (geoPending w)) |];
    destruct (loneSurrogate q); handlers;
    repeat split; reflexivity.
Qed.

(** The suggestion list after one event, by cases on the event. *)
Lemma step_suggestions (t : Z) (e : event) (w w' : World) :
  step t e w = Some w' ->
  suggestions (ui w') = suggestions (ui w)
  \/ suggestions (ui w') = []
  \/ exists id places,
      e = LookupSettles id (Json (Some places))
      /\ suggestions (ui w') = places.
Proof.
  intros H. step_inv H.
  destruct e as [q | | id o | id msg | | i | id o | u].
  - apply Some_inj in H. subst w'. unfold onChange.
    destruct (String.eqb q (query (ui (setClock t w)))); [now left |].
    unfold queryEffect. handlers.
    destruct q; handlers; [right; left | left]; reflexivity.
  - destruct (timer w) as [[due q] |]; [| discriminate].
    destruct (due <=? t); [| discriminate].
    apply Some_inj in H. subst w'. left.
    match goal with
    | |- context [lookup ?q ?w0] =>
        destruct (lookup_frame q w0) as (Hui & _)
    end.
    now rewrite Hui.
  - destruct (mem id (geoPending w)); [| discriminate].
    apply Some_inj in H. subst w'.
    destruct o as [[e |] | | [e |] | [places |]]; handlers;
      try destruct (negb (String.eqb (JsError.name e) "AbortError"));
      handlers; auto.
    right. right. exists id, places. auto.
  - destruct (mem id (geoAborted w)); [| discriminate].
    apply Some_inj in H. subst w'. left. handlers. reflexivity.
  - destruct (suggestions (ui w)) as [| p ps] eqn:E;
      apply Some_inj in H; subst w';
      [left; handlers; now rewrite E |].
    right. left. apply handlePick_frame.
  - destruct (nth_error (suggestions (ui w)) i) as [p |]; [| discriminate].
    apply Some_inj in H. subst w'. right. left. apply handlePick_frame.
  - destruct (mem id (wxPending w)); [| discriminate].
    apply Some_inj in H. subst w'. left.
    match goal with
    | |- context [handlePick_resume ?o ?w0] =>
        destruct (handlePick_resume_frame o w0)
          as (_ & _ & _ & _ & _ & _ & _ & _ & _ & _ & _ & Hs & _)
    end.
    rewrite Hs. reflexivity.
  - apply Some_inj in H. subst w'. left. reflexivity.
Qed.

(** Every lookup request is built by [geoRequest]. *)
Lemma step_geoRequests (t : Z) (e : event) (w w' : World) :
  step t e w = Some w' ->
  geoRequests w' = geoRequests w
  \/ exists q, e = TimerFires /\ timer w = Some q
               /\ geoRequests w'
                  = (geoRequests w ++ [geoRequest (snd q)])%list.
Proof.
  intros H. pose proof (step_search_frame t e w w' H) as Hf.
  destruct e as [q | | id o | id msg | | i | id o | u];
    try (left; apply Hf).
  - step_inv H. apply Some_inj in H. subst w'. left.
    unfold onChange.
    destruct (String.eqb q (query (ui (setClock t w)))); [reflexivity |].
    unfold queryEffect. handlers. destruct q; reflexivity.
  - step_inv H. destruct (timer w) as [[due q] |]; [| discriminate].
    destruct (due <=? t); [| discriminate].
    apply Some_inj in H. subst w'.
    match goal with
    | |- context [lookup ?q ?w0] =>
        destruct (lookup_frame q w0) as (_ & _ & _ & _ & _ & _ & Hr & _)
    end.
    rewrite Hr. destruct (loneSurrogate q); [now left |].
    right. exists (due, q). repeat split; reflexivity.
Qed.

Lemma capped_run (tr : list (Z * event)) :
  forall w w',
    (List.length (suggestions (ui w)) <= 5)%nat ->
    capped tr = true ->
    run tr w = Some w' ->
    (List.length (suggestions (ui w')) <= 5)%nat.
Proof.
  induction tr as [| [t e] tr IH]; intros w w' Hlen Hcap Hrun;
    cbn [run] in Hrun.
  - apply Some_inj in Hrun. now subst.
  - destruct (step t e w) as [w1 |] eqn:E; [| discriminate].
    assert (capped tr = true
            /\ (List.length (suggestions (ui w1)) <= 5)%nat) as [Hcap' Hlen'].
    { destruct (step_suggestions t e w w1 E)
        as [Hs | [Hs | (id & places & -> & Hs)]].
      - rewrite Hs. split; [| exact Hlen].
        destruct e as [q | | id [? | | ? | [places |]] | | | | |];
          cbn [capped] in Hcap; trivial.
        now apply andb_prop in Hcap.
      - rewrite Hs. split; [| simpl; lia].
        destruct e as [q | | id [? | | ? | [places |]] | | | | |];
          cbn [capped] in Hcap; trivial.
        now apply andb_prop in Hcap.
      - cbn [capped] in Hcap. apply andb_prop in Hcap.
        destruct Hcap as [Hp Hcap]. rewrite Hs. split; [exact Hcap |].
        now apply Nat.leb_le. }
    eapply IH; eassumption.
Qed.

(** C5, as the specification states it, does not hold: a response that
    lists six places puts six suggestions on the list. *)
Lemma suggestions_cap_counterexample :
  ~ (forall w,
        reachable w -> (List.length (suggestions (ui w)) <= 5)%nat).
Proof.
  intros Hcap.
  assert (option_map (fun w => List.length (suggestions (ui w)))
            (run sixPlaces initialWorld) = Some 6%nat) as Hsix
    by (vm_compute; reflexivity).
  destruct (run sixPlaces initialWorld) as [w |] eqn:Hrun;
    [| discriminate Hsix].
  cbn [option_map] in Hsix. apply Some_inj in Hsix.
  specialize (Hcap w (ex_intro _ sixPlaces Hrun)). lia.
Qed.

(** C5, amended.  Every lookup request asks for at most five results
    ([count=5]).  A successful response replaces the suggestion list
    wholesale by the places it lists (by the empty list when it lists
    none); the component does not cut the list.  So the list has at most
    five entries as long as every successful response lists at most five
    places, as the request asks. *)
Theorem suggestions_cap :
  (forall w,
      reachable w ->
      Forall (fun r => GeoRequest.count r = 5) (geoRequests w))
  /\ (forall t id results w w',
         step t (LookupSettles id (Json results)) w = Some w' ->
         suggestions (ui w') =
           match results with
           | Some places => places
           | None => []
           end)
  /\ (forall tr w,
         capped tr = true ->
         run tr initialWorld = Some w ->
         (List.length (suggestions (ui w)) <= 5)%nat).
Proof.
  split; [| split].
  - apply reachable_invariant; [constructor |].
    intros t e w w' HP Hstep.
    destruct (step_geoRequests t e w w' Hstep)
      as [-> | (q & _ & _ & ->)]; [exact HP |].
    apply Forall_app. split; [exact HP |].
    constructor; [reflexivity | constructor].
  - intros t id results w w' H. step_inv H.
    destruct (mem id (geoPending w)); [| discriminate].
    apply Some_inj in H. subst w'. handlers. reflexivity.
  - intros tr w Hcap Hrun.
    apply (capped_run tr initialWorld w);
      [simpl; lia | exact Hcap | exact Hrun].
Qed.

Lemma suggestions_cap_witness :
  capped lonAnswered = true
  /\ run lonAnswered initialWorld = Some afterLon
  /\ (List.length (suggestions (ui afterLon)) <= 5)%nat.
Proof.
  assert (capped lonAnswered = true) as Hcap by reflexivity.
  assert (run lonAnswered initialWorld = Some afterLon) as Hrun
    by reflexivity.
  split; [exact Hcap |]. split; [exact Hrun |].
  exact (proj2 (proj2 suggestions_cap) lonAnswered afterLon Hcap Hrun).
Defined.

(* ================================================================= *)
(** ** [handlePick] and the forecast request *)

Lemma handlePick_resume_failure (o : outcome WeatherData.t) (w : World) :
  failed o = true ->
  error (ui (handlePick_resume o w)) = failureMessage o
  /\ weather (ui (handlePick_resume o w)) = weather (ui w).
Proof.
  destruct o as [[e |] | | [e |] | data]; intros Hf;
    try discriminate Hf; handlers; unfold or_else, failureMessage;
    try destruct (JsError.message e); split; reflexivity.
Qed.

Lemma handlePick_resume_success (wx : WeatherData.t) (w : World) :
  error (ui (handlePick_resume (Json wx) w)) = error (ui w)
  /\ weather (ui (handlePick_resume (Json wx) w)) = Some wx.
Proof. handlers. split; reflexivity. Qed.

Lemma handlePick_weather (p : Place.t) (w : World) :
  weather (ui (handlePick (Some p) w)) = None.
Proof. handlers. reflexivity. Qed.

(** The snapshot and the error slot after one event. *)
Lemma step_forecast (t : Z) (e : event) (w w' : World) :
  step t e w = Some w' ->
  match e with
  | WeatherSettles _ o =>
      if failed o
      then weather (ui w') = weather (ui w)
           /\ error (ui w') = failureMessage o
      else error (ui w') = error (ui w)
  | Submit =>
      (weather (ui w') = weather (ui w) /\ error (ui w') = error (ui w))
      \/ (weather (ui w') = None /\ error (ui w') = EmptyString)
  | Pick _ => weather (ui w') = None /\ error (ui w') = EmptyString
  | _ => weather (ui w') = weather (ui w) /\ error (ui w') = error (ui w)
  end.
Proof.
  intros H. step_inv H.
  destruct e as [q | | id o | id msg | | i | id o | u].
  - apply Some_inj in H. subst w'. unfold onChange.
    destruct (String.eqb q (query (ui (setClock t w)))); [now split |].
    unfold queryEffect. handlers.
    destruct q; handlers; split; reflexivity.
  - destruct (timer w) as [[due q] |]; [| discriminate].
    destruct (due <=? t); [| discriminate].
    apply Some_inj in H. subst w'.
    match goal with
    | |- context [lookup ?q ?w0] =>
        destruct (lookup_frame q w0) as (Hui & _)
    end.
    rewrite Hui. split; reflexivity.
  - destruct (mem id (geoPending w)); [| discriminate].
    apply Some_inj in H. subst w'.
    match goal with
    | |- context [lookup_resume ?o ?w0] =>
        destruct (lookup_resume_frame o w0)
          as (_ & _ & _ & _ & _ & _ & _ & _ & _ & _ & Hw & _ & _ & He)
    end.
    rewrite Hw, He. split; reflexivity.
  - destruct (mem id (geoAborted w)); [| discriminate].
    apply Some_inj in H. subst w'. handlers. split; reflexivity.
  - destruct (suggestions (ui w)) as [| p ps]; apply Some_inj in H;
      subst w'; [left | right]; handlers; split; reflexivity.
  - destruct (nth_error (suggestions (ui w)) i) as [p |]; [| discriminate].
    apply Some_inj in H. subst w'. handlers. split; reflexivity.
  - destruct (mem id (wxPending w)); [| discriminate].
    apply Some_inj in H. subst w'.
    destruct (failed o) eqn:Hf.
    + destruct (handlePick_resume_failure o
                  (setWx (wxRequests w) (without id (wxPending w))
                     (setClock t w)) Hf) as (He & Hw).
      rewrite He, Hw. split; reflexivity.
    + destruct o; try discriminate Hf. handlers. reflexivity.
  - apply Some_inj in H. subst w'. handlers. split; reflexivity.
Qed.

(** While no forecast arrives, an empty snapshot stays empty. *)
Lemma noForecast_run (tr : list (Z * event)) :
  forall w w',
    weather (ui w) = None ->
    noForecast tr = true ->
    run tr w = Some w' ->
    weather (ui w') = None.
Proof.
  induction tr as [| [t e] tr IH]; intros w w' Hw Hno Hrun;
    cbn [run] in Hrun.
  - apply Some_inj in Hrun. now subst.
  - destruct (step t e w) as [w1 |] eqn:E; [| discriminate].
    pose proof (step_forecast t e w w1 E) as Hf.
    assert (noForecast tr = true /\ weather (ui w1) = None) as [Hno' Hw1].
    { destruct e as [q | | id o | id msg | | i | id o | u];
        cbn [noForecast] in Hno.
      7: { apply andb_prop in Hno. destruct Hno as [Hfail Hno].
           rewrite Hfail in Hf. split; [exact Hno |].
           destruct Hf as [Hf _]. congruence. }
      all: split; [exact Hno |];
        repeat match goal with
               | H : _ \/ _ |- _ => destruct H
               | H : _ /\ _ |- _ => destruct H
               end; congruence. }
    eapply IH; eassumption.
Qed.

(** While no forecast request fails, an empty error slot stays empty. *)
Lemma noFailure_run (tr : list (Z * event)) :
  forall w w',
    error (ui w) = EmptyString ->
    noFailure tr = true ->
    run tr w = Some w' ->
    error (ui w') = EmptyString.
Proof.
  induction tr as [| [t e] tr IH]; intros w w' Hw Hno Hrun;
    cbn [run] in Hrun.
  - apply Some_inj in Hrun. now subst.
  - destruct (step t e w) as [w1 |] eqn:E; [| discriminate].
    pose proof (step_forecast t e w w1 E) as Hf.
    assert (noFailure tr = true /\ error (ui w1) = EmptyString)
      as [Hno' Hw1].
    { destruct e as [q | | id o | id msg | | i | id o | u];
        cbn [noFailure] in Hno.
      7: { apply andb_prop in Hno. destruct Hno as [Hfail Hno].
           apply negb_true_iff in Hfail.
           rewrite Hfail in Hf. split; [exact Hno | congruence]. }
      all: split; [exact Hno |];
        repeat match goal with
               | H : _ \/ _ |- _ => destruct H
               | H : _ /\ _ |- _ => destruct H
               end; congruence. }
    eapply IH; eassumption.
Qed.

(** C3, as the specification states it, does not hold: when two
    selections overlap, the forecast of the first can arrive before the
    request of the second fails, and the snapshot is then not empty at the
    failure. *)
Lemma handlePick_failure_counterexample :
  ~ (forall w t id o w',
        reachable w ->
        failed o = true ->
        step t (WeatherSettles id o) w = Some w' ->
        weather (ui w') = None).
Proof.
  intros Hclaim.
  assert (match run overlappingPicks initialWorld with
          | Some w =>
              match step 1300 (WeatherSettles 1 (FetchRejects networkError))
                      w with
              | Some w' => weather (ui w') = Some sampleWeather
              | None => False
              end
          | None => False
          end) as Hrun by (vm_compute; reflexivity).
  destruct (run overlappingPicks initialWorld) as [w |] eqn:E;
    [| contradiction].
  destruct (step 1300 (WeatherSettles 1 (FetchRejects networkError)) w)
    as [w' |] eqn:E'; [| contradiction].
  specialize (Hclaim w 1300 1%nat (FetchRejects networkError) w'
                (ex_intro _ overlappingPicks E) eq_refl E').
  congruence.
Qed.

(** C3, amended.  When a forecast request fails (network error, response
    status not ok, unreadable body), the error slot gets the failure's
    message, or the generic text when it has none, the loading flag is
    cleared, and the handler leaves the snapshot as it finds it.  The
    snapshot is empty at that point whenever no forecast has arrived since
    the selection, which emptied it.  And when a forecast arrives after a
    selection, with no failure in between, the error slot is empty, the
    snapshot is the forecast received and the loading flag is cleared. *)
Theorem handlePick_failure :
  (forall t id o w w',
      failed o = true ->
      step t (WeatherSettles id o) w = Some w' ->
      error (ui w') = failureMessage o
      /\ loading (ui w') = false
      /\ weather (ui w') = weather (ui w))
  /\ (forall p w0 tr w t id o w',
         noForecast tr = true ->
         run tr (handlePick (Some p) w0) = Some w ->
         failed o = true ->
         step t (WeatherSettles id o) w = Some w' ->
         weather (ui w') = None
         /\ error (ui w') = failureMessage o
         /\ loading (ui w') = false)
  /\ (forall p w0 tr w t id wx w',
         noFailure tr = true ->
         run tr (handlePick (Some p) w0) = Some w ->
         step t (WeatherSettles id (Json wx)) w = Some w' ->
         error (ui w') = EmptyString
         /\ weather (ui w') = Some wx
         /\ loading (ui w') = false).
Proof.
  assert (forall t id o w w',
             step t (WeatherSettles id o) w = Some w' ->
             loading (ui w') = false) as Hloading.
  { intros t id o w w' H. step_inv H.
    destruct (mem id (wxPending w)); [| discriminate].
    apply Some_inj in H. subst w'. apply handlePick_resume_frame. }
  split; [| split].
  - intros t id o w w' Hf H.
    pose proof (step_forecast t _ w w' H) as Hs. cbn beta iota in Hs.
    rewrite Hf in Hs. destruct Hs as [Hw He].
    split; [exact He |]. split; [eapply Hloading; eassumption | exact Hw].
  - intros p w0 tr w t id o w' Hno Hrun Hf H.
    pose proof (noForecast_run tr _ w (handlePick_weather p w0) Hno Hrun)
      as Hnone.
    pose proof (step_forecast t _ w w' H) as Hs. cbn beta iota in Hs.
    rewrite Hf in Hs. destruct Hs as [Hw He].
    split; [congruence |].
    split; [exact He | eapply Hloading; eassumption].
  - intros p w0 tr w t id wx w' Hno Hrun H.
    assert (error (ui (handlePick (Some p) w0)) = EmptyString) as He0
      by apply handlePick_frame.
    pose proof (noFailure_run tr _ w He0 Hno Hrun) as He.
    split; [| split; [| eapply Hloading; eassumption]].
    + pose proof (step_forecast t _ w w' H) as Hs. cbn in Hs. congruence.
    + step_inv H. destruct (mem id (wxPending w)); [| discriminate].
      apply Some_inj in H. subst w'. apply handlePick_resume_success.
Qed.

Lemma handlePick_failure_witness :
  noForecast [] = true
  /\ run [] (handlePick (Some london) afterLon) = Some londonPicked
  /\ failed (NotOk : outcome WeatherData.t) = true
  /\ step 600 (WeatherSettles 0 NotOk) londonPicked = Some londonFailed
  /\ weather (ui londonFailed) = None
  /\ error (ui londonFailed) = "Failed to fetch weather"
  /\ loading (ui londonFailed) = false.
Proof.
  assert (noForecast [] = true) as Hno by reflexivity.
  assert (run [] (handlePick (Some london) afterLon) = Some londonPicked)
    as Hrun by (vm_compute; reflexivity).
  assert (failed (NotOk : outcome WeatherData.t) = true) as Hf
    by reflexivity.
  assert (step 600 (WeatherSettles 0 NotOk) londonPicked
          = Some londonFailed) as Hstep by (vm_compute; reflexivity).
  do 4 (split; [assumption |]).
  exact (proj1 (proj2 handlePick_failure) london afterLon [] londonPicked
           600 0%nat NotOk londonFailed Hno Hrun Hf Hstep).
Defined.

(* ================================================================= *)
(** ** Cancelled lookups *)

Lemma lookup_catch_abort (e : JsError.t) (w : World) :
  JsError.name e = "AbortError" -> lookup_catch (AnError e) w = w.
Proof. intros Hname. unfold lookup_catch. now rewrite Hname. Qed.

(** C2.  An aborted lookup is not an error.  The [catch] block tells an
    abort from a failure by the name of what was thrown: on an
    ["AbortError"] it returns the state it was given.  When the rejection
    of an aborted lookup is delivered, the component state (the suggestion
    list and the error slot among it) and the console are what they were.
    No outcome of a lookup ever touches the error slot, and what the
    console receives is always an [Error] whose name is not
    ["AbortError"]; such a failure is logged and leaves the component state
    as it was. *)
Theorem lookup_abort_silent :
  (forall e w,
      JsError.name e = "AbortError" -> lookup_catch (AnError e) w = w)
  /\ (forall t id msg w w',
         step t (LookupAborted id msg) w = Some w' ->
         ui w' = ui w
         /\ console w' = console w
         /\ abortRef w' = abortRef w /\ timer w' = timer w
         /\ geoRequests w' = geoRequests w
         /\ geoPending w' = geoPending w)
  /\ (forall o w, error (ui (lookup_resume o w)) = error (ui w))
  /\ (forall o w,
         console (lookup_resume o w) = console w
         \/ exists e,
             tried "Failed to fetch suggestions" o = inl (AnError e)
             /\ JsError.name e <> "AbortError"
             /\ console (lookup_resume o w)
                = (console w ++ [AnError e])%list)
  /\ (forall o e w,
         tried "Failed to fetch suggestions" o = inl (AnError e) ->
         JsError.name e <> "AbortError" ->
         console (lookup_resume o w) = (console w ++ [AnError e])%list
         /\ ui (lookup_resume o w) = ui w).
Proof.
  split; [exact lookup_catch_abort |].
  split.
  { intros t id msg w w' H. step_inv H.
    destruct (mem id (geoAborted w)); [| discriminate].
    apply Some_inj in H. subst w'. handlers.
    repeat split; reflexivity. }
  split; [intros o w; apply lookup_resume_frame |].
  split.
  { intros o w. unfold lookup_resume.
    destruct (tried "Failed to fetch suggestions" o) as [[e |] | results];
      [| left; reflexivity | left; reflexivity].
    unfold lookup_catch.
    destruct (String.eqb_spec (JsError.name e) "AbortError") as [E | E];
      cbn [negb]; [left; reflexivity |].
    right. exists e.
    split; [reflexivity | split; [exact E | reflexivity]]. }
  intros o e w Ho Hname. unfold lookup_resume. rewrite Ho.
  unfold lookup_catch.
  destruct (String.eqb_spec (JsError.name e) "AbortError") as [E | _];
    [contradiction |].
  cbn [negb]. split; reflexivity.
Qed.

Lemma lookup_abort_silent_witness :
  lookup_catch (abortError "The user aborted a request.") afterLon
  = afterLon
  /\ console (lookup_resume NotOk afterLon)
     = [ AnError {| JsError.name := "Error";
                    JsError.message := "Failed to fetch suggestions" |} ]
  /\ ui (lookup_resume NotOk afterLon) = ui afterLon.
Proof.
  split.
  - exact (proj1 lookup_abort_silent
             {| JsError.name := "AbortError";
                JsError.message := "The user aborted a request." |}
             afterLon eq_refl).
  - assert ("Error" <> "AbortError") as Hname by discriminate.
    exact (proj2 (proj2 (proj2 (proj2 lookup_abort_silent)))
             NotOk _ afterLon eq_refl Hname).
Defined.

(* ================================================================= *)
(** ** Debouncing and the lookup in flight *)

Lemma step_clock_eq (t : Z) (e : event) (w w' : World) :
  step t e w = Some w' -> clock w' = t.
Proof.
  intros H. step_inv H.
  destruct e as [q | | id o | id msg | | i | id o | u].
  - apply Some_inj in H. subst w'. unfold onChange.
    destruct (String.eqb q (query (ui (setClock t w)))); [reflexivity |].
    unfold queryEffect. handlers. destruct q; reflexivity.
  - destruct (timer w) as [[due q] |]; [| discriminate].
    destruct (due <=? t); [| discriminate].
    apply Some_inj in H. subst w'.
    match goal with
    | |- context [lookup ?q ?w0] =>
        destruct (lookup_frame q w0) as (_ & Hc & _)
    end.
    now rewrite Hc.
  - destruct (mem id (geoPending w)); [| discriminate].
    apply Some_inj in H. subst w'.
    match goal with
    | |- context [lookup_resume ?o ?w0] =>
        destruct (lookup_resume_frame o w0) as (_ & Hc & _)
    end.
    now rewrite Hc.
  - destruct (mem id (geoAborted w)); [| discriminate].
    apply Some_inj in H. subst w'. reflexivity.
  - destruct (suggestions (ui w)) as [| p ps]; apply Some_inj in H;
      subst w'; reflexivity.
  - destruct (nth_error (suggestions (ui w)) i) as [p |]; [| discriminate].
    apply Some_inj in H. subst w'. reflexivity.
  - destruct (mem id (wxPending w)); [| discriminate].
    apply Some_inj in H. subst w'.
    match goal with
    | |- context [handlePick_resume ?o ?w0] =>
        destruct (handlePick_resume_frame o w0) as (_ & Hc & _)
    end.
    now rewrite Hc.
  - apply Some_inj in H. subst w'. reflexivity.
Qed.

Lemma change_starts_burst (t : Z) (q : string) (w w' : World) :
  q <> query (ui w) ->
  step t (Change q) w = Some w' ->
  inBurst (geoRequests w) t q w'.
Proof.
  intros Hq H. step_inv H. apply Some_inj in H. subst w'.
  unfold onChange. handlers.
  destruct (String.eqb_spec q (query (ui w))) as [E | _];
    [contradiction |].
  unfold inBurst, queryEffect, timerFor. handlers.
  destruct q; handlers; split; try reflexivity; left; split; reflexivity.
Qed.

Lemma burst_run (tr : list (Z * event)) :
  forall reqs0 tl ql w w',
    inBurst reqs0 tl ql w ->
    burst tl ql tr = true ->
    run tr w = Some w' ->
    exists tl', inBurst reqs0 tl' (lastQuery ql tr) w'.
Proof.
  induction tr as [| [t e] tr IH]; intros reqs0 tl ql w w' Hin Hb Hrun;
    cbn [run] in Hrun.
  - apply Some_inj in Hrun. subst w'. now exists tl.
  - destruct (step t e w) as [w1 |] eqn:E; [| discriminate].
    pose proof (step_clock t e w w1 E) as Hle.
    pose proof (step_clock_eq t e w w1 E) as Hclk.
    pose proof (step_search_frame t e w w1 E) as Hf.
    destruct Hin as (Hquery & Hphase).
    assert ((query (ui w1) = query (ui w) /\ timer w1 = timer w
             /\ geoRequests w1 = geoRequests w) ->
            burst tl ql tr = true ->
            lastQuery ql ((t, e) :: tr) = lastQuery ql tr ->
            exists tl', inBurst reqs0 tl' (lastQuery ql ((t, e) :: tr)) w')
      as Hother.
    { intros (Hq1 & Ht1 & Hr1) Hb' ->.
      apply (IH reqs0 tl ql w1 w'); [| exact Hb' | exact Hrun].
      split; [congruence |].
      destruct Hphase as [(Hr & Ht) | (Ht & Hc & Hne & Hr)];
        [left; split; congruence |].
      right. repeat split; try congruence. lia. }
    destruct e as [q | | id o | id msg | | i | id o | u];
      try (apply (Hother Hf Hb eq_refl)).
    + (* a further change *)
      cbn [burst] in Hb. apply andb_prop in Hb. destruct Hb as [Hb Hb'].
      apply andb_prop in Hb. destruct Hb as [Hgap Hneq].
      apply Z.ltb_lt in Hgap. apply negb_true_iff in Hneq.
      apply String.eqb_neq in Hneq.
      destruct Hphase as [(Hr & _) | (_ & Hc & _)]; [| lia].
      cbn [lastQuery].
      apply (IH reqs0 t q w1 w'); [| exact Hb' | exact Hrun].
      rewrite <- Hr. apply change_starts_burst; [congruence | exact E].
    + (* the timer *)
      cbn [burst] in Hb. cbn [lastQuery].
      apply (IH reqs0 tl ql w1 w'); [| exact Hb | exact Hrun].
      step_inv E.
      destruct (timer w) as [[due q'] |] eqn:Htimer; [| discriminate].
      destruct (Z.leb_spec due t) as [Hdue | _]; [| discriminate].
      apply Some_inj in E. subst w1.
      destruct Hphase as [(Hr & Ht) | (Ht & _)]; [| discriminate].
      unfold timerFor in Ht. destruct ql as [| c ql']; [discriminate |].
      apply Some_inj in Ht.
      assert (due = tl + 300 /\ q' = String c ql') as [-> ->]
        by (split; congruence).
      match goal with
      | |- context [lookup ?q ?w0] =>
          destruct (lookup_frame q w0)
            as (Hui & Hc & Htm & _ & _ & _ & Hreq & _)
      end.
      split; [rewrite Hui; exact Hquery |].
      right. rewrite Hreq, Htm, Hc. handlers. rewrite Hr.
      repeat split; [exact Hdue | discriminate].
Qed.

(** What the timeout callback does to the lookups, in a state where at
    most one is in flight: the one in flight joins the aborted ones, and
    the new request, when one is sent, is the only one in flight. *)
Lemma lookup_geo (q : string) (w : World) :
  oneInFlight w ->
  geoAborted (lookup q w) = (geoAborted w ++ geoPending w)%list
  /\ geoPending (lookup q w)
     = (if loneSurrogate q then [] else [List.length (geoRequests w)])
  /\ geoRequests (lookup q w)
     = (if loneSurrogate q
        then geoRequests w
        else geoRequests w ++ [geoRequest q])%list.
Proof.
  intros Hinv.
  destruct (lookup_frame q w) as (_ & _ & _ & _ & _ & _ & Hr & _).
  split; [| split; [| exact Hr]].
  - destruct Hinv as [Hnone | (id & Hp' & Ha & _)]; unfold lookup;
      rewrite lookup_catch_uriError.
    + rewrite Hnone, app_nil_r.
      destruct (abortRef w) as [c |]; unfold abort; rewrite ?Hnone;
        unfold mem; cbn [existsb]; destruct (loneSurrogate q);
        handlers; reflexivity.
    + rewrite Ha. unfold abort. rewrite Hp'. unfold mem.
      cbn [existsb]. rewrite Nat.eqb_refl. cbn [orb].
      destruct (loneSurrogate q); handlers; reflexivity.
  - destruct Hinv as [Hnone | (id & Hp' & Ha & _)]; unfold lookup;
      rewrite lookup_catch_uriError.
    + destruct (abortRef w) as [c |]; unfold abort; rewrite ?Hnone;
        unfold mem; cbn [existsb]; destruct (loneSurrogate q);
        handlers; rewrite ?Hnone; reflexivity.
    + rewrite Ha. unfold abort. rewrite Hp'. unfold mem, without.
      cbn [existsb filter]. rewrite Nat.eqb_refl. cbn [orb negb].
      destruct (loneSurrogate q); handlers; reflexivity.
Qed.

Lemma lookup_pending (q : string) (w : World) :
  oneInFlight w ->
  geoPending (lookup q w)
  = (if loneSurrogate q then [] else [List.length (geoRequests w)])
  /\ forall id,
      In id (geoPending w) ->
      In id (geoAborted (lookup q w))
      /\ ~ In id (geoPending (lookup q w)).
Proof.
  intros Hinv. destruct (lookup_geo q w Hinv) as (Hab & Hp & _).
  split; [exact Hp |].
  intros id Hin. rewrite Hab, Hp. split.
  - apply in_or_app. now right.
  - destruct Hinv as [Hnone | (id' & Hp' & _ & Hlt)].
    + rewrite Hnone in Hin. contradiction.
    + rewrite Hp' in Hin. destruct Hin as [<- | []].
      destruct (loneSurrogate q); [intros [] |].
      intros [Heq | []]. lia.
Qed.

Lemma oneInFlight_step (t : Z) (e : event) (w w' : World) :
  oneInFlight w -> step t e w = Some w' -> oneInFlight w'.
Proof.
  intros Hinv H. step_inv H.
  destruct e as [q | | id o | id msg | | i | id o | u].
  - apply Some_inj in H. subst w'. unfold onChange.
    destruct (String.eqb q (query (ui (setClock t w)))); [exact Hinv |].
    unfold queryEffect. handlers. destruct q; exact Hinv.
  - destruct (timer w) as [[due q] |]; [| discriminate].
    destruct (due <=? t); [| discriminate].
    apply Some_inj in H. subst w'.
    assert (oneInFlight (setTimer None (setClock t w))) as Hinv'
      by exact Hinv.
    destruct (lookup_geo q _ Hinv') as (_ & Hp & Hreq).
    destruct (lookup_frame q (setTimer None (setClock t w)))
      as (_ & _ & _ & _ & _ & _ & _ & Href).
    unfold oneInFlight. rewrite Hp, Hreq, Href.
    destruct (loneSurrogate q); [now left |].
    right. exists (List.length (geoRequests w)).
    split; [reflexivity |]. split; [reflexivity |].
    rewrite length_app. handlers. simpl. lia.
  - destruct (mem id (geoPending w)) eqn:Hmem; [| discriminate].
    apply Some_inj in H. subst w'. left.
    match goal with
    | |- context [lookup_resume ?o ?w0] =>
        destruct (lookup_resume_frame o w0)
          as (_ & _ & _ & _ & Hp & _)
    end.
    rewrite Hp. handlers.
    destruct Hinv as [Hnone | (id' & Hp' & _)].
    + now rewrite Hnone.
    + rewrite Hp' in *. unfold mem, without in *.
      cbn [existsb filter orb] in *.
      rewrite orb_false_r in Hmem. now rewrite Hmem.
  - destruct (mem id (geoAborted w)); [| discriminate].
    apply Some_inj in H. subst w'. exact Hinv.
  - destruct (suggestions (ui w)) as [| p ps]; apply Some_inj in H;
      subst w'; exact Hinv.
  - destruct (nth_error (suggestions (ui w)) i) as [p |]; [| discriminate].
    apply Some_inj in H. subst w'. exact Hinv.
  - destruct (mem id (wxPending w)); [| discriminate].
    apply Some_inj in H. subst w'.
    destruct o as [[e |] | | [e |] | data]; exact Hinv.
  - apply Some_inj in H. subst w'. exact Hinv.
Qed.

Lemma reachable_oneInFlight (w : World) : reachable w -> oneInFlight w.
Proof.
  apply reachable_invariant; [now left | exact oneInFlight_step].
Qed.

Lemma timerCurrent_step (t : Z) (e : event) (w w' : World) :
  timerCurrent w -> step t e w = Some w' -> timerCurrent w'.
Proof.
  intros Hinv H.
  pose proof (step_clock t e w w' H) as Hle.
  pose proof (step_clock_eq t e w w' H) as Hclk.
  pose proof (step_search_frame t e w w' H) as Hf.
  unfold timerCurrent in *.
  destruct e as [q | | id o | id msg | | i | id o | u];
    try (destruct Hf as (Hq & Ht & _); rewrite Ht, Hq, Hclk;
         destruct (timer w) as [[due q'] |]; [| exact I];
         destruct Hinv as (H1 & H2 & H3); repeat split; trivial; lia).
  - step_inv H. apply Some_inj in H. subst w'. unfold onChange.
    cbn [ui setClock query].
    destruct (String.eqb q (query (ui w))).
    + cbn [timer setClock ui query clock].
      destruct (timer w) as [[due q'] |]; [| exact I].
      destruct Hinv as (H1 & H2 & H3). repeat split; trivial. lia.
    + unfold queryEffect. handlers.
      destruct q as [| c q]; handlers; [exact I |].
      repeat split; [discriminate | lia].
  - step_inv H. destruct (timer w) as [[due q] |]; [| discriminate].
    destruct (due <=? t); [| discriminate].
    apply Some_inj in H. subst w'.
    destruct (lookup_frame q (setTimer None (setClock t w)))
      as (_ & _ & Ht & _).
    rewrite Ht. exact I.
Qed.

Lemma reachable_timerCurrent (w : World) : reachable w -> timerCurrent w.
Proof.
  apply reachable_invariant; [exact I | exact timerCurrent_step].
Qed.

(** C1.  Debounce and latest-wins.  Take a burst of query changes: a
    first change and then, among whatever else happens (the timer, lookup
    and forecast responses, selections, unit clicks), further changes that
    each come less than 300ms after the change before (a change gives the
    query a new text: setting the text it already has does not re-run the
    effect).  However long the run goes on after the last change, at most
    one lookup request is issued from the first change on, and the name it
    asks for is the text of the last change (with [count=5],
    [language=en], [format=json]); it has been issued once no timer is
    pending any more, unless that text is empty or no URL can be built
    from it.  At every moment at most one lookup is in flight: when the
    timer fires, the lookup still in flight is aborted and taken off the
    lookups in flight, and the request then sent, which asks for the query
    on display, is the only one in flight. *)
Theorem debounce_latest_wins :
  (forall w t1 q1 tr w',
      q1 <> query (ui w) ->
      burst t1 q1 tr = true ->
      run ((t1, Change q1) :: tr) w = Some w' ->
      let latest :=
        {| GeoRequest.name := lastQuery q1 tr;
           GeoRequest.count := 5;
           GeoRequest.language := "en";
           GeoRequest.format := "json" |} in
      (geoRequests w' = geoRequests w
       \/ geoRequests w' = (geoRequests w ++ [latest])%list)
      /\ (timer w' = None ->
          lastQuery q1 tr <> EmptyString ->
          loneSurrogate (lastQuery q1 tr) = false ->
          geoRequests w' = (geoRequests w ++ [latest])%list))
  /\ (forall w, reachable w -> (List.length (geoPending w) <= 1)%nat)
  /\ (forall w t w',
         reachable w ->
         step t TimerFires w = Some w' ->
         (forall id,
             In id (geoPending w) ->
             In id (geoAborted w') /\ ~ In id (geoPending w'))
         /\ (loneSurrogate (query (ui w)) = false ->
             geoPending w' = [List.length (geoRequests w)]
             /\ geoRequests w'
                = (geoRequests w
                     ++ [ {| GeoRequest.name := query (ui w);
                             GeoRequest.count := 5;
                             GeoRequest.language := "en";
                             GeoRequest.format := "json" |} ])%list)
         /\ (loneSurrogate (query (ui w)) = true ->
             geoPending w' = [] /\ geoRequests w' = geoRequests w)).
Proof.
  split; [| split].
  - intros w t1 q1 tr w' Hq Hb Hrun latest. cbn [run] in Hrun.
    destruct (step t1 (Change q1) w) as [w1 |] eqn:E; [| discriminate].
    pose proof (change_starts_burst t1 q1 w w1 Hq E) as Hin.
    destruct (burst_run tr _ _ _ _ _ Hin Hb Hrun)
      as (tl' & _ & [(Hr & Ht) | (Ht & _ & Hne & Hr)]).
    + split; [now left |].
      intros Hnone Hlast _. exfalso.
      rewrite Ht in Hnone. unfold timerFor in Hnone.
      destruct (lastQuery q1 tr); [now apply Hlast | discriminate].
    + destruct (loneSurrogate (lastQuery q1 tr)).
      * split; [now left | discriminate].
      * split; [now right | intros _ _ _; exact Hr].
  - intros w Hreach.
    destruct (reachable_oneInFlight w Hreach) as [-> | (id & -> & _)];
      simpl; lia.
  - intros w t w' Hreach H.
    pose proof (reachable_oneInFlight w Hreach) as Hinv.
    pose proof (reachable_timerCurrent w Hreach) as Htc.
    step_inv H. unfold timerCurrent in Htc.
    destruct (timer w) as [[due q] |]; [| discriminate].
    destruct (due <=? t); [| discriminate].
    apply Some_inj in H. subst w'.
    destruct Htc as (-> & _).
    assert (oneInFlight (setTimer None (setClock t w))) as Hinv'
      by exact Hinv.
    destruct (lookup_geo (query (ui w)) _ Hinv') as (_ & Hp & Hr).
    split; [exact (proj2 (lookup_pending _ _ Hinv')) |].
    rewrite Hp, Hr.
    split; intros ->; split; reflexivity.
Qed.

Lemma debounce_latest_wins_witness :
  "Lon" <> query (ui initialWorld)
  /\ burst 0 "Lon" typingLondon = true
  /\ run ((0, Change "Lon") :: typingLondon) initialWorld
     = Some afterLondon
  /\ geoRequests afterLondon
     = [ {| GeoRequest.name := "London";
            GeoRequest.count := 5;
            GeoRequest.language := "en";
            GeoRequest.format := "json" |} ].
Proof.
  assert ("Lon" <> query (ui initialWorld)) as Hq by discriminate.
  assert (burst 0 "Lon" typingLondon = true) as Hb by reflexivity.
  assert (run ((0, Change "Lon") :: typingLondon) initialWorld
          = Some afterLondon) as Hrun by (vm_compute; reflexivity).
  assert (timer afterLondon = None) as Ht by reflexivity.
  assert ("London" <> EmptyString) as Hne by discriminate.
  assert (loneSurrogate "London" = false) as Hls by reflexivity.
  split; [exact Hq |]. split; [exact Hb |]. split; [exact Hrun |].
  exact (proj2 (proj1 debounce_latest_wins initialWorld 0 "Lon"
                  typingLondon afterLondon Hq Hb Hrun) Ht Hne Hls).
Defined.

(* ================================================================= *)
(** * Further properties of the code *)

(* ================================================================= *)
(** ** Celsius to Fahrenheit *)

Lemma cToF_linear (c : Q) : (cToF c == c * (9 # 5) + 32)%Q.
Proof. unfold cToF. field. Qed.

(** X1.  [cToF] never reverses two temperatures: a reading that is not
    colder in Celsius is not colder in Fahrenheit.  It takes -40 to -40,
    0 to 32 and 100 to 212, on doubles as well.  (It can merge
    neighbouring doubles: 20 and the next double above it both give
    68.) *)
Theorem cToF_order :
  (forall a b : Q, (a <= b)%Q -> (cToF a <= cToF b)%Q)
  /\ (cToF (- (40)) == - (40))%Q
  /\ (cToF 0 == 32)%Q
  /\ (cToF 100 == 212)%Q
  /\ PrimFloat.eqb (Double.cToF (Double.ofZ (- 40))) (Double.ofZ (- 40))
     = true
  /\ PrimFloat.eqb (Double.cToF (Double.ofZ 0)) (Double.ofZ 32) = true
  /\ PrimFloat.eqb (Double.cToF (Double.ofZ 100)) (Double.ofZ 212) = true
  /\ PrimFloat.eqb (Double.cToF (Double.ofZ 20))
       (Double.cToF (PrimFloat.next_up (Double.ofZ 20))) = true.
Proof.
  split; [intros a b H; rewrite !cToF_linear; lra |].
  do 3 (split; [reflexivity |]).
  vm_compute. repeat split.
Qed.

Lemma cToF_order_witness :
  (20 <= 25)%Q /\ (cToF 20 <= cToF 25)%Q.
Proof.
  assert (20 <= 25)%Q as H by (unfold Qle; simpl; lia).
  split; [exact H |].
  exact (proj1 cToF_order 20%Q 25%Q H).
Defined.

(* ================================================================= *)
(** ** The sixteen sectors *)

Lemma sector_of (n : Z) (deg : Q) :
  (inject_Z n * (45 # 2) - (45 # 4) <= deg)%Q ->
  (deg < inject_Z n * (45 # 2) + (45 # 4))%Q ->
  Math_round (deg / (45 # 2))%Q = n.
Proof.
  intros Hlo Hhi. unfold Math_round.
  assert (deg / (45 # 2) == deg * (2 # 45))%Q as Hdiv by field.
  apply Qfloor_unique.
  - rewrite Hdiv. lra.
  - rewrite Hdiv, inject_Z_plus. change (inject_Z 1) with 1%Q. lra.
Qed.

Lemma sectorEnds_all :
  forallb Double.sectorEnds (map Z.of_nat (seq 0 17)) = true.
Proof. vm_compute. reflexivity. Qed.

(** X2.  Within the first seventeen sectors, [degToCompass] gives every
    angle the label of the nearest multiple of 22.5 degrees: an angle from
    11.25 below to (not including) 11.25 above the [n]-th multiple,
    [0 <= n <= 16], gets label number [n mod 16] of the table, so that 360
    and everything from 348.75 on wraps to the first label again.  On
    doubles the first and the last double of each of these sectors get
    that label. *)
Theorem degToCompass_sector (n : Z) (deg : Q) :
  0 <= n <= 16 ->
  (inject_Z n * (45 # 2) - (45 # 4) <= deg)%Q ->
  (deg < inject_Z n * (45 # 2) + (45 # 4))%Q ->
  degToCompass deg = nth_error dirs (Z.to_nat (n mod 16))
  /\ (exists label, degToCompass deg = Some label)
  /\ Double.degToCompass (Double.sectorStart n)
     = nth_error dirs (Z.to_nat (n mod 16))
  /\ Double.degToCompass (Double.sectorLast n)
     = nth_error dirs (Z.to_nat (n mod 16)).
Proof.
  intros Hn Hlo Hhi.
  pose proof (Z.mod_pos_bound n 16 ltac:(lia)) as Hm.
  assert (degToCompass deg = nth_error dirs (Z.to_nat (n mod 16))) as Heq.
  { unfold degToCompass, compassIndex.
    rewrite (sector_of n deg Hlo Hhi), Z.rem_mod_nonneg by lia.
    unfold index. destruct (Z.ltb_spec (n mod 16) 0); [lia | reflexivity]. }
  split; [exact Heq |]. split.
  - destruct (index_dirs (n mod 16) Hm) as (label & _ & _ & Hnth).
    exists label. now rewrite Heq.
  - pose proof (forallb_below Double.sectorEnds 17 sectorEnds_all n
                  ltac:(change (Z.of_nat 17) with 17; lia)) as Hc.
    unfold Double.sectorEnds in Hc.
    apply andb_prop in Hc. destruct Hc as [H1 H2].
    split; apply sameLabel_eq; assumption.
Qed.

Lemma degToCompass_sector_witness :
  degToCompass 360%Q = Some "N" /\ degToCompass (2025 # 10)%Q = Some "SSW".
Proof.
  split.
  - refine (proj1 (degToCompass_sector 16 360%Q _ _ _));
      [lia | unfold Qle; simpl; lia | unfold Qlt; simpl; lia].
  - refine (proj1 (degToCompass_sector 9 (2025 # 10)%Q _ _ _));
      [lia | unfold Qle; simpl; lia | unfold Qlt; simpl; lia].
Defined.

(** X3.  [degToCompass] returns [undefined] for exactly the angles below
    -11.25 whose rounded sector number is not a multiple of 16; every
    angle from -11.25 up has a label. *)
Theorem degToCompass_undefined (deg : Q) :
  degToCompass deg = None
  <-> (deg < - (45 # 4))%Q /\ Math_round (deg / (45 # 2))%Q mod 16 <> 0.
Proof.
  set (r := Math_round (deg / (45 # 2))%Q).
  assert (r < 0 <-> (deg < - (45 # 4))%Q) as Hneg.
  { pose proof (Math_round_nearest (deg / (45 # 2))%Q) as [Hlo Hhi].
    fold r in Hlo, Hhi.
    assert (deg / (45 # 2) == deg * (2 # 45))%Q as Hdiv by field.
    rewrite Hdiv in Hlo, Hhi.
    split; intros H.
    - assert (inject_Z r <= - (1))%Q as Hr.
      { change (- (1))%Q with (inject_Z (- 1)). rewrite <- Zle_Qle. lia. }
      lra.
    - assert (inject_Z r < inject_Z 0)%Q as Hr
        by (change (inject_Z 0) with 0%Q; lra).
      now rewrite <- Zlt_Qlt in Hr. }
  unfold degToCompass, compassIndex. fold r. unfold index.
  split.
  - intros Hnone.
    destruct (Z.ltb_spec (Z.rem r 16) 0) as [Hlt | Hge].
    + assert (r < 0) as Hr.
      { destruct (Z.lt_ge_cases r 0) as [? | Hr]; [assumption |].
        rewrite Z.rem_mod_nonneg in Hlt by lia.
        pose proof (Z.mod_pos_bound r 16). lia. }
      split; [now apply Hneg |].
      intros Hz. apply Z.rem_mod_eq_0 in Hz; lia.
    + apply nth_error_None in Hnone. simpl in Hnone.
      pose proof (Z.rem_bound_abs r 16 ltac:(lia)). lia.
  - intros [Hlt Hnz]. apply Hneg in Hlt.
    assert (Z.rem r 16 <> 0) as Hrem
      by (intros Hz; apply Hnz; now apply Z.rem_mod_eq_0 in Hz).
    pose proof (Z.rem_nonpos r 16 ltac:(lia) ltac:(lia)).
    destruct (Z.ltb_spec (Z.rem r 16) 0); [reflexivity | lia].
Qed.

(* ================================================================= *)
(** ** The label of the current view *)

(** X4.  The label of the current view is never empty: it is the table's
    label for the snapshot's weather code, or ["—"]. *)
Theorem current_label (w : WeatherData.t) (u : Unit) (v : CurrentView.t) :
  current (Some w) u = Some v ->
  CurrentView.label v <> EmptyString
  /\ (CurrentView.label v = "—"
      \/ exists k,
          In (k, CurrentView.label v) WEATHER_CODE
          /\ (CurrentWeather.weather_code (WeatherData.current w)
              == inject_Z k)%Q).
Proof.
  unfold current. cbn [option_map]. intros H. apply Some_inj in H.
  subst v. cbn [CurrentView.label].
  set (code := CurrentWeather.weather_code (WeatherData.current w)).
  unfold lookup_code.
  destruct (find (fun kv => Qeq_bool code (inject_Z (fst kv))) WEATHER_CODE)
    as [[k l] |] eqn:E.
  - apply find_some in E. destruct E as [Hin Hcode]. cbn [fst snd] in *.
    apply Qeq_bool_iff in Hcode.
    pose proof (WEATHER_CODE_labels k l Hin) as Hl.
    rewrite (or_else_some l _ Hl).
    split; [exact Hl |]. right. exists k. auto.
  - cbn [or_else]. split; [discriminate | now left].
Qed.

Lemma current_label_witness :
  exists v,
    current (Some sampleWeather) C = Some v
    /\ CurrentView.label v <> EmptyString.
Proof.
  eexists. split; [reflexivity |].
  exact (proj1 (current_label sampleWeather C _ eq_refl)).
Defined.

(* ================================================================= *)
(** ** The hourly view, by unit and by length *)

Lemma positions_filter (P : string -> bool) (l : list string) :
  forall s,
    map snd (filter (fun p => P (snd p)) (combine (seq s (List.length l)) l))
    = filter P l.
Proof.
  induction l as [| a l IH]; intros s; [reflexivity |].
  cbn [List.length seq combine filter snd].
  destruct (P a); cbn [map snd]; now rewrite IH.
Qed.

(** X5.  The unit does not change which hours are listed: for the same
    snapshot and clock reading, the Fahrenheit view has the timestamps and
    the precipitation probabilities of the Celsius view, entry by entry,
    and its temperatures are those of the Celsius view through [cToF]. *)
Theorem next12Hours_unit (getTime : string -> option Z)
    (weather : option WeatherData.t) (now : Z) :
  map HourView.time (next12Hours getTime weather F now)
  = map HourView.time (next12Hours getTime weather C now)
  /\ map HourView.pop (next12Hours getTime weather F now)
     = map HourView.pop (next12Hours getTime weather C now)
  /\ map HourView.temp (next12Hours getTime weather F now)
     = map cToF_js (map HourView.temp (next12Hours getTime weather C now)).
Proof.
  rewrite !next12Hours_eq. unfold deriveUpcomingHours.
  destruct weather as [w |]; [| repeat split; reflexivity].
  cbv zeta. rewrite <- !firstn_map, !map_map.
  repeat split; reflexivity.
Qed.

(** X6.  The timestamps of the hourly view are the first twelve of the
    series' timestamps that are at or after [now] (a timestamp that does
    not parse is not), so the view has twelve entries when twelve or more
    qualify and as many as qualify otherwise; with no snapshot it is
    empty. *)
Theorem next12Hours_times (getTime : string -> option Z) (u : Unit)
    (now : Z) :
  next12Hours getTime None u now = []
  /\ forall w,
      let upcoming :=
        upcomingTimes getTime now
          (HourlyWeather.time (WeatherData.hourly w)) in
      map HourView.time (next12Hours getTime (Some w) u now)
      = firstn 12 upcoming
      /\ List.length (next12Hours getTime (Some w) u now)
         = Nat.min 12 (List.length upcoming).
Proof.
  split; [reflexivity |].
  intros w upcoming.
  assert (map HourView.time (next12Hours getTime (Some w) u now)
          = firstn 12 upcoming) as Htimes.
  { rewrite next12Hours_eq. unfold deriveUpcomingHours. cbv zeta.
    rewrite <- firstn_map, map_map. cbn [hourItem HourView.time].
    unfold positions, upcoming, upcomingTimes.
    now rewrite (positions_filter
                   (fun ti => at_or_after (getTime ti) now)). }
  split; [exact Htimes |].
  rewrite <- (length_map HourView.time), Htimes. apply length_firstn.
Qed.

(* ================================================================= *)
(** ** Place names on screen *)

Lemma append_empty_r (s : string) : s ++ EmptyString = s.
Proof. induction s as [| c s IH]; [reflexivity |]. cbn. now rewrite IH. Qed.

(** X7.  The heading of the selected place is its name followed, when the
    suggestion line for that place is not empty, by a comma and that line;
    the suggestion line is empty exactly when the place has neither a
    region nor a country (an empty string counts as none). *)
Theorem placeHeading_sub (p : Place.t) :
  placeHeading p =
    Place.name p
    ++ match suggestionSub p with
       | EmptyString => EmptyString
       | sub => ", " ++ sub
       end
  /\ (suggestionSub p = EmptyString
      <-> commaThen (Place.admin1 p) = EmptyString
          /\ commaThen (Place.country p) = EmptyString).
Proof.
  unfold placeHeading, suggestionSub.
  destruct (Place.admin1 p) as [[| c1 s1] |],
           (Place.country p) as [[| c2 s2] |];
    cbn [filterBoolean join commaThen append];
    rewrite ?append_empty_r;
    (split; [reflexivity | split; [intros H | intros [H1 H2]]]);
    try discriminate; auto.
Qed.

(* ================================================================= *)
(** ** What each handler leaves alone *)

Lemma onChange_frame (q : string) (w : World) :
  let w' := onChange q w in
  abortRef w' = abortRef w /\ clock w' = clock w
  /\ geoRequests w' = geoRequests w /\ geoPending w' = geoPending w
  /\ geoAborted w' = geoAborted w /\ wxRequests w' = wxRequests w
  /\ wxPending w' = wxPending w /\ console w' = console w
  /\ selectedPlace (ui w') = selectedPlace (ui w)
  /\ weather (ui w') = weather (ui w) /\ unit (ui w') = unit (ui w)
  /\ loading (ui w') = loading (ui w) /\ error (ui w') = error (ui w).
Proof.
  unfold onChange.
  destruct (String.eqb q (query (ui w))); [repeat split; reflexivity |].
  unfold queryEffect. handlers. destruct q; handlers;
    repeat split; reflexivity.
Qed.

Lemma handlePick_forecast (p : Place.t) (w : World) :
  let w' := handlePick (Some p) w in
  wxRequests w' = (wxRequests w ++ [wxRequest p])%list
  /\ wxPending w' = (wxPending w ++ [List.length (wxRequests w)])%list
  /\ loading (ui w') = true /\ weather (ui w') = None.
Proof. handlers. repeat split; reflexivity. Qed.

Lemma handlePick_resume_cells (o : outcome WeatherData.t) (w : World) :
  unit (ui (handlePick_resume o w)) = unit (ui w)
  /\ query (ui (handlePick_resume o w)) = query (ui w)
  /\ selectedPlace (ui (handlePick_resume o w)) = selectedPlace (ui w)
  /\ wxRequests (handlePick_resume o w) = wxRequests w
  /\ wxPending (handlePick_resume o w) = wxPending w.
Proof.
  destruct (handlePick_resume_frame o w)
    as (_ & _ & _ & _ & _ & _ & _ & Hr & Hp & Hq & Hu & _ & Hs & _).
  auto.
Qed.

Lemma mem_In (n : nat) (l : list nat) : mem n l = true <-> In n l.
Proof.
  unfold mem. rewrite existsb_exists. split.
  - intros (x & Hin & Heq). apply Nat.eqb_eq in Heq. now subst.
  - intros Hin. exists n. split; [exact Hin | apply Nat.eqb_refl].
Qed.

Lemma In_without (n x : nat) (l : list nat) :
  In x (without n l) -> In x l /\ x <> n.
Proof.
  unfold without. rewrite filter_In. intros [Hin Hneq].
  split; [exact Hin |].
  apply negb_true_iff, Nat.eqb_neq in Hneq. congruence.
Qed.

(* ================================================================= *)
(** ** Requests: who issues them, and which may answer *)

(** X8.  Forecast requests come from selections only, one per selection.
    A click on a suggestion, or a submit while suggestions are listed,
    selects the place, empties the suggestion list, the error slot and
    the snapshot, raises the loading flag and issues one request: its
    [latitude] is the place's latitude, its [longitude] the place's
    longitude, and it asks for the seven current fields, the three hourly
    series and [timezone=auto].  No other event issues a forecast request
    or changes the selected place: a submit with no suggestion listed
    does nothing, and a response, failed or not, is not retried. *)
Theorem forecast_requests (t : Z) (e : event) (w w' : World) :
  step t e w = Some w' ->
  match picked e w with
  | Some p =>
      wxRequests w'
      = (wxRequests w
           ++ [ {| WxRequest.latitude := Place.latitude p;
                   WxRequest.longitude := Place.longitude p;
                   WxRequest.current :=
                     [ "temperature_2m"; "apparent_temperature"; "is_day";
                       "weather_code"; "wind_speed_10m";
                       "wind_direction_10m"; "relative_humidity_2m" ];
                   WxRequest.hourly :=
                     [ "temperature_2m"; "precipitation_probability";
                       "relative_humidity_2m" ];
                   WxRequest.timezone := "auto" |} ])%list
      /\ wxPending w' = (wxPending w ++ [List.length (wxRequests w)])%list
      /\ selectedPlace (ui w') = Some p
      /\ suggestions (ui w') = []
      /\ error (ui w') = EmptyString
      /\ weather (ui w') = None
      /\ loading (ui w') = true
  | None =>
      wxRequests w' = wxRequests w
      /\ selectedPlace (ui w') = selectedPlace (ui w)
  end.
Proof.
  intros H. step_inv H.
  assert (forall p w0,
             wxRequests w0 = wxRequests w ->
             wxPending w0 = wxPending w ->
             let w1 := handlePick (Some p) w0 in
             wxRequests w1 = (wxRequests w ++ [wxRequest p])%list
             /\ wxPending w1
                = (wxPending w ++ [List.length (wxRequests w)])%list
             /\ selectedPlace (ui w1) = Some p
             /\ suggestions (ui w1) = []
             /\ error (ui w1) = EmptyString
             /\ weather (ui w1) = None
             /\ loading (ui w1) = true) as Hpick.
  { intros p w0 Hr Hp w1.
    destruct (handlePick_forecast p w0) as (H1 & H2 & H3 & H4).
    destruct (handlePick_frame (Some p) w0)
      as (_ & _ & _ & _ & _ & _ & _ & _ & _ & H5 & H6 & H7).
    subst w1. rewrite H1, H2, Hr, Hp. auto 10. }
  destruct e as [q | | id o | id msg | | i | id o | u]; cbn [picked].
  - apply Some_inj in H. subst w'.
    destruct (onChange_frame q (setClock t w))
      as (_ & _ & _ & _ & _ & Hr & _ & _ & Hs & _).
    rewrite Hr, Hs. split; reflexivity.
  - destruct (timer w) as [[due q] |]; [| discriminate].
    destruct (due <=? t); [| discriminate].
    apply Some_inj in H. subst w'.
    destruct (lookup_frame q (setTimer None (setClock t w)))
      as (Hui & _ & _ & _ & Hr & _).
    rewrite Hui, Hr. split; reflexivity.
  - destruct (mem id (geoPending w)); [| discriminate].
    apply Some_inj in H. subst w'.
    match goal with
    | |- context [lookup_resume ?o ?w0] =>
        destruct (lookup_resume_frame o w0)
          as (_ & _ & _ & _ & _ & _ & Hr & _ & _ & Hs & _)
    end.
    rewrite Hr, Hs. split; reflexivity.
  - destruct (mem id (geoAborted w)); [| discriminate].
    apply Some_inj in H. subst w'. handlers. split; reflexivity.
  - destruct (suggestions (ui w)) as [| p ps]; apply Some_inj in H;
      subst w'; cbn [hd_error]; [split; reflexivity |].
    apply Hpick; reflexivity.
  - destruct (nth_error (suggestions (ui w)) i) as [p |]; [| discriminate].
    apply Some_inj in H. subst w'. apply Hpick; reflexivity.
  - destruct (mem id (wxPending w)); [| discriminate].
    apply Some_inj in H. subst w'.
    match goal with
    | |- context [handlePick_resume ?o ?w0] =>
        destruct (handlePick_resume_cells o w0) as (_ & _ & Hs & Hr & _)
    end.
    rewrite Hs, Hr. split; reflexivity.
  - apply Some_inj in H. subst w'. split; reflexivity.
Qed.

Lemma forecast_requests_witness :
  step 400 (Pick 0%nat) afterLon = Some londonPicked
  /\ wxRequests londonPicked
     = [ {| WxRequest.latitude := (515 # 10)%Q;
            WxRequest.longitude := (- (1 # 10))%Q;
            WxRequest.current :=
              [ "temperature_2m"; "apparent_temperature"; "is_day";
                "weather_code"; "wind_speed_10m";
                "wind_direction_10m"; "relative_humidity_2m" ];
            WxRequest.hourly :=
              [ "temperature_2m"; "precipitation_probability";
                "relative_humidity_2m" ];
            WxRequest.timezone := "auto" |} ]
  /\ selectedPlace (ui londonPicked) = Some london
  /\ suggestions (ui londonPicked) = [].
Proof.
  assert (step 400 (Pick 0%nat) afterLon = Some londonPicked) as Hstep
    by (vm_compute; reflexivity).
  split; [exact Hstep |].
  destruct (forecast_requests 400 (Pick 0%nat) afterLon londonPicked Hstep)
    as (Hr & _ & Hs & Hl & _).
  repeat split; assumption.
Defined.

(** X9.  Lookup requests come from the timer only, at most one per
    firing.  In a state the component can reach, the query the timeout
    callback works with is the one on display and is never empty.  When a
    URL can be built from it, the callback issues exactly one request,
    whose [name] is that text, with [count=5], [language=en] and
    [format=json].  When it holds a lone surrogate, [encodeURIComponent]
    throws before [fetch] is called: no request is issued and the
    [URIError] is logged.  No other event adds a lookup request. *)
Theorem lookup_requests (t : Z) (e : event) (w w' : World) :
  reachable w ->
  step t e w = Some w' ->
  match e with
  | TimerFires =>
      query (ui w) <> EmptyString
      /\ (loneSurrogate (query (ui w)) = false ->
          geoRequests w'
          = (geoRequests w
               ++ [ {| GeoRequest.name := query (ui w);
                       GeoRequest.count := 5;
                       GeoRequest.language := "en";
                       GeoRequest.format := "json" |} ])%list
          /\ console w' = console w)
      /\ (loneSurrogate (query (ui w)) = true ->
          geoRequests w' = geoRequests w
          /\ exists e,
              console w' = (console w ++ [AnError e])%list
              /\ JsError.name e = "URIError")
  | _ => geoRequests w' = geoRequests w
  end.
Proof.
  intros Hreach H.
  pose proof (reachable_timerCurrent w Hreach) as Hinv.
  destruct e as [q | | id o | id msg | | i | id o | u];
    try (destruct (step_geoRequests _ _ _ _ H)
           as [Hsame | (q0 & He & _)];
         [exact Hsame | discriminate He]).
  step_inv H. unfold timerCurrent in Hinv.
  destruct (timer w) as [[due q] |]; [| discriminate].
  destruct (due <=? t); [| discriminate].
  apply Some_inj in H. subst w'.
  destruct Hinv as (-> & Hne & _).
  destruct (lookup_frame (query (ui w)) (setTimer None (setClock t w)))
    as (_ & _ & _ & Hc & _ & _ & Hr & _).
  rewrite Hc, Hr. split; [exact Hne |].
  split; intros ->; (split; [reflexivity |]); [reflexivity |].
  eexists. split; reflexivity.
Qed.

Lemma lookup_requests_witness :
  (reachable lonTyped
   /\ step 300 TimerFires lonTyped = Some lonPending
   /\ geoRequests lonPending
      = [ {| GeoRequest.name := "Lon";
             GeoRequest.count := 5;
             GeoRequest.language := "en";
             GeoRequest.format := "json" |} ])
  /\ (reachable loneTyped
      /\ exists w',
          step 300 TimerFires loneTyped = Some w'
          /\ geoRequests w' = []
          /\ exists e,
              console w' = [AnError e] /\ JsError.name e = "URIError").
Proof.
  split.
  - assert (reachable lonTyped) as Hreach.
    { exists [ (0, Change "Lon") ]. vm_compute. reflexivity. }
    assert (step 300 TimerFires lonTyped = Some lonPending) as Hstep
      by (vm_compute; reflexivity).
    split; [exact Hreach |]. split; [exact Hstep |].
    exact (proj1 (proj1 (proj2 (lookup_requests 300 TimerFires lonTyped
                                  lonPending Hreach Hstep))
                    eq_refl)).
  - assert (reachable loneTyped) as Hreach.
    { exists [ (0, Change loneD800) ]. vm_compute. reflexivity. }
    assert (exists w', step 300 TimerFires loneTyped = Some w')
      as (w' & Hstep) by (eexists; vm_compute; reflexivity).
    split; [exact Hreach |]. exists w'. split; [exact Hstep |].
    exact (proj2 (proj2 (lookup_requests 300 TimerFires loneTyped w'
                           Hreach Hstep))
             eq_refl).
Defined.

Lemma latestOnly_step (t : Z) (e : event) (w w' : World) :
  oneInFlight w -> latestOnly w -> step t e w = Some w' -> latestOnly w'.
Proof.
  intros Hone [Hp Ha] H. step_inv H. unfold latestOnly.
  destruct e as [q | | id o | id msg | | i | id o | u].
  - apply Some_inj in H. subst w'.
    destruct (onChange_frame q (setClock t w))
      as (_ & _ & Hr & Hpe & Hab & _).
    rewrite Hr, Hpe, Hab. split; assumption.
  - destruct (timer w) as [[due q] |]; [| discriminate].
    destruct (due <=? t); [| discriminate].
    apply Some_inj in H. subst w'.
    assert (oneInFlight (setTimer None (setClock t w))) as Hone'
      by exact Hone.
    destruct (lookup_geo q _ Hone') as (Hab & Hpe & Hr).
    rewrite Hab, Hpe, Hr.
    destruct (loneSurrogate q); rewrite ?length_app;
      cbn [geoRequests geoPending geoAborted setTimer setClock List.length].
    + split; [intros id [] |].
      intros id Hin. apply in_app_or in Hin.
      destruct Hin as [Hin | Hin].
      * destruct (Ha id Hin) as [Hlt _]. split; [lia | intros []].
      * pose proof (Hp id Hin) as Hlast. split; [lia | intros []].
    + split.
      * intros id [<- | []]. lia.
      * intros id Hin. apply in_app_or in Hin.
        destruct Hin as [Hin | Hin].
        -- destruct (Ha id Hin) as [Hlt _].
           split; [lia |]. intros [Heq | []]. lia.
        -- pose proof (Hp id Hin) as Hlast.
           split; [lia |]. intros [Heq | []]. lia.
  - destruct (mem id (geoPending w)); [| discriminate].
    apply Some_inj in H. subst w'.
    match goal with
    | |- context [lookup_resume ?o ?w0] =>
        destruct (lookup_resume_frame o w0)
          as (_ & _ & _ & Hr & Hpe & Hab & _)
    end.
    rewrite Hr, Hpe, Hab. handlers. split.
    + intros id' Hin. apply In_without in Hin. now apply Hp.
    + intros id' Hin. destruct (Ha id' Hin) as [Hlt Hnot].
      split; [exact Hlt |]. intros Hin'. apply In_without in Hin'.
      now apply Hnot.
  - destruct (mem id (geoAborted w)); [| discriminate].
    apply Some_inj in H. subst w'. handlers. split; [exact Hp |].
    intros id' Hin. apply In_without in Hin. now apply Ha.
  - destruct (suggestions (ui w)) as [| p ps]; apply Some_inj in H;
      subst w'; [split; assumption |].
    destruct (handlePick_frame (Some p) (setClock t w))
      as (_ & _ & _ & Hr & Hpe & Hab & _).
    rewrite Hr, Hpe, Hab. split; assumption.
  - destruct (nth_error (suggestions (ui w)) i) as [p |]; [| discriminate].
    apply Some_inj in H. subst w'.
    destruct (handlePick_frame (Some p) (setClock t w))
      as (_ & _ & _ & Hr & Hpe & Hab & _).
    rewrite Hr, Hpe, Hab. split; assumption.
  - destruct (mem id (wxPending w)); [| discriminate].
    apply Some_inj in H. subst w'.
    match goal with
    | |- context [handlePick_resume ?o ?w0] =>
        destruct (handlePick_resume_frame o w0)
          as (_ & _ & _ & Hr & Hpe & Hab & _)
    end.
    rewrite Hr, Hpe, Hab. split; assumption.
  - apply Some_inj in H. subst w'. split; assumption.
Qed.

Lemma reachable_latestOnly (w : World) :
  reachable w -> oneInFlight w /\ latestOnly w.
Proof.
  apply (reachable_invariant (fun w => oneInFlight w /\ latestOnly w)).
  - split; [now left |]. split; intros id [].
  - intros t e w0 w1 [Hone Hlatest] Hstep. split.
    + eapply oneInFlight_step; eassumption.
    + eapply latestOnly_step; eassumption.
Qed.

(** X10.  Only the lookup issued last can answer.  In a state the
    component can reach, a lookup response that is delivered belongs to
    the most recent request of the log, the one whose controller
    [abortRef] holds; and a lookup that was aborted can no longer deliver
    a response, whatever the server sends. *)
Theorem latest_lookup_only (w : World) :
  reachable w ->
  (forall t id o w',
      step t (LookupSettles id o) w = Some w' ->
      S id = List.length (geoRequests w) /\ abortRef w = Some id)
  /\ (forall id,
         In id (geoAborted w) ->
         forall t o, step t (LookupSettles id o) w = None).
Proof.
  intros Hreach.
  destruct (reachable_latestOnly w Hreach) as (Hone & Hp & Ha).
  split.
  - intros t id o w' H. step_inv H.
    destruct (mem id (geoPending w)) eqn:Hmem; [| discriminate].
    apply mem_In in Hmem. split; [now apply Hp |].
    destruct Hone as [Hnone | (id' & Hp' & Href & _)].
    + rewrite Hnone in Hmem. contradiction.
    + rewrite Hp' in Hmem. destruct Hmem as [<- | []]. exact Href.
  - intros id Hin t o. unfold step.
    destruct (t <? clock w); [reflexivity |].
    cbn [geoPending setClock].
    destruct (mem id (geoPending w)) eqn:Hmem; [| reflexivity].
    apply mem_In in Hmem. destruct (Ha id Hin) as [_ Hnot].
    contradiction.
Qed.

Lemma latest_lookup_only_witness :
  reachable lonPending
  /\ exists w',
      step 400 (LookupSettles 0 (Json (Some [london]))) lonPending
      = Some w'
      /\ 1%nat = List.length (geoRequests lonPending)
      /\ abortRef lonPending = Some 0%nat.
Proof.
  assert (reachable lonPending) as Hreach.
  { exists [ (0, Change "Lon"); (300, TimerFires) ].
    vm_compute. reflexivity. }
  split; [exact Hreach |].
  exists afterLon.
  assert (step 400 (LookupSettles 0 (Json (Some [london]))) lonPending
          = Some afterLon) as Hstep by (vm_compute; reflexivity).
  split; [exact Hstep |].
  exact (proj1 (latest_lookup_only lonPending Hreach) 400 0%nat _ afterLon
           Hstep).
Defined.

(* ================================================================= *)
(** ** The search path and the forecast side *)

Lemma step_forecastSide (t : Z) (e : event) (w w' : World) :
  step t e w = Some w' ->
  match e with
  | Submit | Pick _ | WeatherSettles _ _ => True
  | _ => forecastSide w' = forecastSide w
  end.
Proof.
  intros H. step_inv H. unfold forecastSide.
  destruct e as [q | | id o | id msg | | i | id o | u]; trivial.
  - apply Some_inj in H. subst w'.
    destruct (onChange_frame q (setClock t w))
      as (_ & _ & _ & _ & _ & Hr & Hp & _ & Hs & Hw & _ & Hl & He).
    now rewrite Hr, Hp, Hs, Hw, Hl, He.
  - destruct (timer w) as [[due q] |]; [| discriminate].
    destruct (due <=? t); [| discriminate].
    apply Some_inj in H. subst w'.
    destruct (lookup_frame q (setTimer None (setClock t w)))
      as (Hui & _ & _ & _ & Hr & Hp & _).
    now rewrite Hui, Hr, Hp.
  - destruct (mem id (geoPending w)); [| discriminate].
    apply Some_inj in H. subst w'.
    match goal with
    | |- context [lookup_resume ?o ?w0] =>
        destruct (lookup_resume_frame o w0)
          as (_ & _ & _ & _ & _ & _ & Hr & Hp & _ & Hs & Hw & _ & Hl & He)
    end.
    now rewrite Hr, Hp, Hs, Hw, Hl, He.
  - destruct (mem id (geoAborted w)); [| discriminate].
    apply Some_inj in H. subst w'. reflexivity.
  - apply Some_inj in H. subst w'. reflexivity.
Qed.

(** X11.  Searching never disturbs the forecast.  A change of the query,
    the timer, and a lookup response of any kind (places, an empty body, a
    failure, an abort) leave the selected place, the snapshot, the loading
    flag, the error slot and the forecast requests as they are: a failed
    lookup shows no error and blocks nothing. *)
Theorem search_leaves_forecast (t : Z) (e : event) (w w' : World) :
  step t e w = Some w' ->
  match e with
  | Change _ | TimerFires | LookupSettles _ _ | LookupAborted _ _ =>
      selectedPlace (ui w') = selectedPlace (ui w)
      /\ weather (ui w') = weather (ui w)
      /\ loading (ui w') = loading (ui w)
      /\ error (ui w') = error (ui w)
      /\ wxRequests w' = wxRequests w
      /\ wxPending w' = wxPending w
  | _ => True
  end.
Proof.
  intros H. pose proof (step_forecastSide t e w w' H) as Hside.
  unfold forecastSide in Hside.
  destruct e; trivial; inversion Hside; auto 10.
Qed.

Lemma search_leaves_forecast_witness :
  step 400 (LookupSettles 0 NotOk) lonPending = Some lonFailed
  /\ error (ui lonFailed) = error (ui lonPending)
  /\ weather (ui lonFailed) = weather (ui lonPending).
Proof.
  assert (step 400 (LookupSettles 0 NotOk) lonPending = Some lonFailed)
    as Hstep by (vm_compute; reflexivity).
  split; [exact Hstep |].
  destruct (search_leaves_forecast 400 _ lonPending lonFailed Hstep)
    as (_ & Hw & _ & He & _).
  split; [exact He | exact Hw].
Defined.

Lemma loadingClean_step (t : Z) (e : event) (w w' : World) :
  loadingClean w -> step t e w = Some w' -> loadingClean w'.
Proof.
  intros Hinv H.
  pose proof (step_forecastSide t e w w' H) as Hside.
  assert (forecastSide w' = forecastSide w -> loadingClean w') as Hsame.
  { unfold forecastSide, loadingClean in *. intros Heq.
    inversion Heq as [[Hs Hw Hl He Hr Hp]].
    rewrite Hs, Hw, Hl, He, Hr, Hp. exact Hinv. }
  assert (forall p w0, loadingClean (handlePick (Some p) w0)) as Hpick.
  { intros p w0.
    destruct (handlePick_forecast p w0) as (_ & Hp & Hl & Hw).
    destruct (handlePick_frame (Some p) w0)
      as (_ & _ & _ & _ & _ & _ & _ & _ & _ & _ & He & Hs).
    unfold loadingClean. rewrite Hp, Hl, Hw, He, Hs. split.
    - intros _. repeat split. intros Habs.
      apply (f_equal (@List.length _)) in Habs.
      rewrite length_app in Habs. simpl in Habs. lia.
    - discriminate. }
  destruct e as [q | | id o | id msg | | i | id o | u];
    try (apply Hsame; exact Hside).
  - step_inv H. destruct (suggestions (ui w)) as [| p ps];
      apply Some_inj in H; subst w'; [exact Hinv | apply Hpick].
  - step_inv H.
    destruct (nth_error (suggestions (ui w)) i) as [p |]; [| discriminate].
    apply Some_inj in H. subst w'. apply Hpick.
  - step_inv H.
    destruct (mem id (wxPending w)) eqn:Hmem; [| discriminate].
    apply Some_inj in H. subst w'.
    match goal with
    | |- context [handlePick_resume ?o ?w0] =>
        destruct (handlePick_resume_frame o w0)
          as (_ & _ & _ & _ & _ & _ & _ & _ & _ & _ & _ & _ & Hs & Hl)
    end.
    unfold loadingClean. rewrite Hl, Hs. split; [discriminate |].
    cbn [ui setWx setClock selectedPlace]. intros Hnone.
    destruct Hinv as [_ Hidle].
    destruct (Hidle Hnone) as (_ & _ & _ & _ & Hp).
    rewrite Hp in Hmem. discriminate.
Qed.

(** X12.  The loading flag tells the truth about what is on screen.  In
    every state the component can reach, while the loading flag is up the
    snapshot and the error slot are empty and a forecast request is in
    flight; and as long as no place has been selected, there is no
    snapshot, no error, no loading flag and no forecast request. *)
Theorem loading_clean (w : World) :
  reachable w ->
  (loading (ui w) = true ->
   weather (ui w) = None /\ error (ui w) = EmptyString
   /\ wxPending w <> [])
  /\ (selectedPlace (ui w) = None ->
      weather (ui w) = None /\ error (ui w) = EmptyString
      /\ loading (ui w) = false /\ wxRequests w = []
      /\ wxPending w = []).
Proof.
  apply (reachable_invariant loadingClean).
  - split; [discriminate | intros _; repeat split; reflexivity].
  - exact loadingClean_step.
Qed.

Lemma loading_clean_witness :
  reachable londonPicked
  /\ loading (ui londonPicked) = true
  /\ weather (ui londonPicked) = None
  /\ error (ui londonPicked) = EmptyString
  /\ wxPending londonPicked <> [].
Proof.
  assert (reachable londonPicked) as Hreach.
  { exists (lonAnswered ++ [ (400, Pick 0%nat) ])%list.
    vm_compute. reflexivity. }
  assert (loading (ui londonPicked) = true) as Hl by reflexivity.
  split; [exact Hreach |]. split; [exact Hl |].
  exact (proj1 (loading_clean londonPicked Hreach) Hl).
Defined.

(* ================================================================= *)
(** ** Clearing the input while a lookup is in flight *)

(** X13.  Emptying the query does not cancel the lookup in flight.  When
    the query becomes empty while a lookup is in flight, the lookup stays
    in flight, and when its response arrives the places it lists become
    the suggestion list, under an empty query. *)
Theorem cleared_query_late_response (t t2 : Z) (id : nat)
    (places : list Place.t) (w w1 : World) :
  query (ui w) <> EmptyString ->
  In id (geoPending w) ->
  step t (Change EmptyString) w = Some w1 ->
  t <= t2 ->
  geoPending w1 = geoPending w
  /\ suggestions (ui w1) = []
  /\ exists w2,
      step t2 (LookupSettles id (Json (Some places))) w1 = Some w2
      /\ query (ui w2) = EmptyString
      /\ suggestions (ui w2) = places.
Proof.
  intros Hq Hin H Ht2. step_inv H. apply Some_inj in H.
  assert (w1 = withUi (setSuggestions [])
                 (setTimer None
                    (withUi (setQuery EmptyString) (setClock t w))))
    as Hw1.
  { rewrite <- H. unfold onChange. cbn [ui setClock query].
    destruct (String.eqb_spec EmptyString (query (ui w))) as [E | _];
      [congruence | reflexivity]. }
  clear H. subst w1. handlers.
  split; [reflexivity |]. split; [reflexivity |].
  apply mem_In in Hin.
  eexists. split.
  - unfold step. handlers.
    destruct (Z.ltb_spec t2 t) as [Hlt | _]; [lia |].
    rewrite Hin. reflexivity.
  - handlers. split; reflexivity.
Qed.

Lemma cleared_query_late_response_witness :
  query (ui lonPending) <> EmptyString
  /\ In 0%nat (geoPending lonPending)
  /\ exists w1 w2,
      step 350 (Change EmptyString) lonPending = Some w1
      /\ step 400 (LookupSettles 0 (Json (Some [london]))) w1 = Some w2
      /\ query (ui w2) = EmptyString
      /\ suggestions (ui w2) = [london].
Proof.
  assert (query (ui lonPending) <> EmptyString) as Hq by discriminate.
  assert (In 0%nat (geoPending lonPending)) as Hin by (now left).
  split; [exact Hq |]. split; [exact Hin |].
  assert (step 350 (Change EmptyString) lonPending
          = Some (withUi (setSuggestions [])
                    (setTimer None
                       (withUi (setQuery EmptyString)
                          (setClock 350 lonPending))))) as Hstep
    by (vm_compute; reflexivity).
  destruct (cleared_query_late_response 350 400 0%nat [london] lonPending
              _ Hq Hin Hstep ltac:(lia))
    as (_ & _ & w2 & H2 & Hq2 & Hs2).
  eexists. exists w2. split; [exact Hstep |]. auto.
Defined.

(* ================================================================= *)
(** ** Selecting while a lookup is in flight *)

(** X14.  A selection does not stop the search.  Clicking a suggestion or
    submitting the form leaves the query text, the pending timer and the
    lookup in flight as they are; so when a lookup is in flight at the
    selection, its response still arrives afterwards and lists its places
    again under the place just selected. *)
Theorem selection_keeps_search (t t2 : Z) (e : event) (p : Place.t)
    (id : nat) (places : list Place.t) (w w1 : World) :
  step t e w = Some w1 ->
  picked e w = Some p ->
  In id (geoPending w) ->
  t <= t2 ->
  query (ui w1) = query (ui w)
  /\ timer w1 = timer w
  /\ geoPending w1 = geoPending w
  /\ exists w2,
      step t2 (LookupSettles id (Json (Some places))) w1 = Some w2
      /\ suggestions (ui w2) = places
      /\ selectedPlace (ui w2) = Some p.
Proof.
  intros H Hpicked Hin Ht2.
  pose proof (step_clock_eq t e w w1 H) as Hclk.
  assert (w1 = handlePick (Some p) (setClock t w)) as Hw1.
  { step_inv H.
    destruct e as [q | | id' o | id' msg | | i | id' o | u];
      cbn [picked] in Hpicked; try discriminate Hpicked.
    - destruct (suggestions (ui w)) as [| p' ps];
        cbn [hd_error] in Hpicked; [discriminate |].
      apply Some_inj in Hpicked. apply Some_inj in H. congruence.
    - rewrite Hpicked in H. apply Some_inj in H. congruence. }
  destruct (handlePick_frame (Some p) (setClock t w))
    as (_ & _ & Ht & _ & Hp & _ & _ & Hq & _ & _ & _ & Hs).
  rewrite <- Hw1 in Ht, Hp, Hq, Hs.
  split; [exact Hq |]. split; [exact Ht |]. split; [exact Hp |].
  apply mem_In in Hin.
  eexists. split.
  - unfold step. rewrite Hclk.
    destruct (Z.ltb_spec t2 t) as [Hlt | _]; [lia |].
    cbn [geoPending setClock]. rewrite Hp.
    cbn [geoPending setClock]. rewrite Hin. reflexivity.
  - match goal with
    | |- context [lookup_resume ?o ?w0] =>
        destruct (lookup_resume_frame o w0)
          as (_ & _ & _ & _ & _ & _ & _ & _ & _ & Hsel & _)
    end.
    rewrite Hsel. handlers. split; [reflexivity | exact Hs].
Qed.

Lemma selection_keeps_search_witness :
  picked (Pick 0%nat) londPending = Some london
  /\ In 1%nat (geoPending londPending)
  /\ exists w1 w2,
      step 850 (Pick 0%nat) londPending = Some w1
      /\ step 900 (LookupSettles 1 (Json (Some [hyderabad]))) w1 = Some w2
      /\ suggestions (ui w2) = [hyderabad]
      /\ selectedPlace (ui w2) = Some london.
Proof.
  assert (picked (Pick 0%nat) londPending = Some london) as Hpicked
    by reflexivity.
  assert (In 1%nat (geoPending londPending)) as Hin by (now left).
  split; [exact Hpicked |]. split; [exact Hin |].
  assert (step 850 (Pick 0%nat) londPending
          = Some (handlePick (Some london) (setClock 850 londPending)))
    as Hstep by (vm_compute; reflexivity).
  destruct (selection_keeps_search 850 900 (Pick 0%nat) london 1%nat
              [hyderabad] londPending _ Hstep Hpicked Hin ltac:(lia))
    as (_ & _ & _ & w2 & H2 & Hs & Hsel).
  eexists. exists w2. split; [exact Hstep |]. auto.
Defined.

(* ================================================================= *)
(** ** Who writes what *)

Lemma lookup_resume_console (o : outcome (option (list Place.t)))
    (w : World) :
  failed o = false -> console (lookup_resume o w) = console w.
Proof.
  destruct o as [e | | e | data]; intros Hf; try discriminate Hf.
  reflexivity.
Qed.

(** X15.  Each of these cells has one writer.  The unit changes only on a
    click on a unit button, the query text only on a change of the input,
    and the console receives something only when a lookup fails, that
    is at a lookup response that failed or at a timer firing whose query
    holds a lone surrogate, from which no URL can be built: a failed
    forecast request is shown in the error slot and not logged. *)
Theorem cells_owner (t : Z) (e : event) (w w' : World) :
  step t e w = Some w' ->
  (unit (ui w') <> unit (ui w) -> exists u, e = UnitButton u)
  /\ (query (ui w') <> query (ui w) -> exists q, e = Change q)
  /\ (console w' <> console w ->
      (exists id o, e = LookupSettles id o /\ failed o = true)
      \/ (e = TimerFires
          /\ exists due q,
              timer w = Some (due, q) /\ loneSurrogate q = true)).
Proof.
  intros H. pose proof (step_search_frame t e w w' H) as Hf.
  step_inv H.
  destruct e as [q | | id o | id msg | | i | id o | u].
  - apply Some_inj in H. subst w'.
    destruct (onChange_frame q (setClock t w))
      as (_ & _ & _ & _ & _ & _ & _ & Hc & _ & _ & Hu & _).
    split; [intros Hne; now rewrite Hu in Hne |].
    split; [intros _; now exists q |].
    intros Hne. now rewrite Hc in Hne.
  - destruct (timer w) as [[due q] |]; [| discriminate].
    destruct (due <=? t); [| discriminate].
    apply Some_inj in H. subst w'.
    destruct (lookup_frame q (setTimer None (setClock t w)))
      as (Hui & _ & _ & Hc & _).
    rewrite Hui, Hc.
    split; [intros Hne; now elim Hne |].
    split; [intros Hne; now elim Hne |].
    intros Hne. right. split; [reflexivity |]. exists due, q.
    split; [reflexivity |].
    destruct (loneSurrogate q); [reflexivity | now elim Hne].
  - destruct Hf as (Hq & _).
    destruct (mem id (geoPending w)); [| discriminate].
    apply Some_inj in H. subst w'.
    match goal with
    | |- context [lookup_resume ?o ?w0] =>
        destruct (lookup_resume_frame o w0)
          as (_ & _ & _ & _ & _ & _ & _ & _ & _ & _ & _ & Hu & _);
        pose proof (lookup_resume_console o w0) as Hc
    end.
    split; [intros Hne; now rewrite Hu in Hne |].
    split; [intros Hne; now elim Hne |].
    intros Hne. left. exists id, o. split; [reflexivity |].
    destruct (failed o); [reflexivity |].
    now rewrite Hc in Hne.
  - destruct Hf as (Hq & _).
    destruct (mem id (geoAborted w)); [| discriminate].
    apply Some_inj in H. subst w'. handlers.
    repeat split; intros Hne; now elim Hne.
  - destruct Hf as (Hq & _).
    destruct (suggestions (ui w)) as [| p ps]; apply Some_inj in H;
      subst w'; [repeat split; intros Hne; now elim Hne |].
    destruct (handlePick_frame (Some p) (setClock t w))
      as (_ & _ & _ & _ & _ & _ & Hc & _ & Hu & _).
    rewrite Hu, Hc. repeat split; intros Hne; now elim Hne.
  - destruct Hf as (Hq & _).
    destruct (nth_error (suggestions (ui w)) i) as [p |]; [| discriminate].
    apply Some_inj in H. subst w'.
    destruct (handlePick_frame (Some p) (setClock t w))
      as (_ & _ & _ & _ & _ & _ & Hc & _ & Hu & _).
    rewrite Hu, Hc. repeat split; intros Hne; now elim Hne.
  - destruct Hf as (Hq & _).
    destruct (mem id (wxPending w)); [| discriminate].
    apply Some_inj in H. subst w'.
    match goal with
    | |- context [handlePick_resume ?o ?w0] =>
        destruct (handlePick_resume_frame o w0)
          as (_ & _ & _ & _ & _ & _ & Hc & _ & _ & _ & Hu & _)
    end.
    rewrite Hu, Hc. repeat split; intros Hne; now elim Hne.
  - apply Some_inj in H. subst w'.
    split; [intros _; now exists u |].
    split; intros Hne; now elim Hne.
Qed.

Lemma cells_owner_witness :
  step 400 (LookupSettles 0 NotOk) lonPending = Some lonFailed
  /\ console lonFailed <> console lonPending
  /\ ((exists id o,
         LookupSettles 0 NotOk = LookupSettles id o /\ failed o = true)
      \/ (LookupSettles 0 NotOk = TimerFires
          /\ exists due q,
              timer lonPending = Some (due, q)
              /\ loneSurrogate q = true)).
Proof.
  assert (step 400 (LookupSettles 0 NotOk) lonPending = Some lonFailed)
    as Hstep by (vm_compute; reflexivity).
  assert (console lonFailed <> console lonPending) as Hne by discriminate.
  split; [exact Hstep |]. split; [exact Hne |].
  exact (proj2 (proj2 (cells_owner 400 _ lonPending lonFailed Hstep)) Hne).
Defined.
